(** * python-lastfm: the decorators of [lastfm/decorators.py] and the entity
      [Group] of [lastfm/group.py], embedded and verified.

    The Python code is embedded shallowly.  Python values live in a small
    universe [value]; mutable objects (lists, instances that cannot be
    copied) live in a heap and are referred to by location, so that aliasing
    between a cached value and the copies handed out by a property can be
    observed.  Code that may raise and that mutates objects is a computation
    of the monad [M], which threads a [world] and returns either a value or
    the exception that was raised. *)

From stdpp Require Import gmap strings list fin_maps pretty.
From Stdlib Require Import ZArith Lia OrdersEx.

Local Open Scope string_scope.
Local Open Scope Z_scope.
Local Open Scope list_scope.

(** ** Python values, exceptions and objects *)

Abbreviation loc := positive.

(** Modelled from the spec: [lastfm.error] is not among the sources.  These
    are the exception classes the two modules import from it, the errors of
    the package, which all derive from its base class [LastfmError]; every
    other class (the ones of the standard library: [KeyError], [TypeError],
    [copy.Error], ...) is [OtherException], with its name. *)
Inductive exn_class :=
| LastfmError
| AuthenticationFailedError
| InvalidParametersError
| OtherException (name : string).

(** An exception instance: its class and its message. *)
Record exn := Exn { exn_cls : exn_class; exn_msg : string }.

(** [isinstance(e, LastfmError)], what [except LastfmError] tests. *)
Definition is_LastfmError (e : exn) : bool :=
  match exn_cls e with
  | OtherException _ => false
  | _ => true
  end.

(** [isinstance(e, Exception)], what [except Exception] tests.  The errors
    of the package are exceptions; of the classes of the standard library
    the interpreter's exit signals [SystemExit], [KeyboardInterrupt] and
    [GeneratorExit] derive from [BaseException] only. *)
Definition is_Exception (e : exn) : bool :=
  match exn_cls e with
  | OtherException n =>
      negb (bool_decide (n ∈ ["SystemExit"; "KeyboardInterrupt"; "GeneratorExit"]))
  | _ => true
  end.

(** [isinstance(e, AuthenticationFailedError)]. *)
Definition is_AuthenticationFailedError (e : exn) : bool :=
  match exn_cls e with
  | AuthenticationFailedError => true
  | _ => false
  end.

Inductive value :=
| VNone
| VInt (n : Z)
| VStr (s : string)
| VFunc (f : nat)          (* a function object: callable *)
| VExc (e : exn)           (* an exception instance held as a value *)
| VRef (l : loc).          (* a reference to a heap object *)

(** Heap objects.  [OList] is a Python list.  [OUncopyable e] is an instance
    of a class whose copy protocol raises [e]: for an entity of this package
    [copy.copy] re-runs the caching constructor without identity arguments,
    which raises [InvalidParametersError]; for a generator or a lock the
    standard library raises [TypeError]. *)
Inductive hobj :=
| OList (items : list value)
| OUncopyable (e : exn).

#[global] Instance exn_class_eq_dec : EqDecision exn_class.
Proof. solve_decision. Defined.
#[global] Instance exn_eq_dec : EqDecision exn.
Proof. solve_decision. Defined.
#[global] Instance value_eq_dec : EqDecision value.
Proof. solve_decision. Defined.
#[global] Instance hobj_eq_dec : EqDecision hobj.
Proof. solve_decision. Defined.

(** [v is None] *)
Definition is_None (v : value) : bool :=
  match v with VNone => true | _ => false end.

(** [callable(v)] *)
Definition callable (v : value) : bool :=
  match v with VFunc _ => true | _ => false end.

(** ** Stores, traces and worlds *)

(** What user code can read and write: the heap, and the attribute
    dictionary of the instance the decorated method is bound to ([ob],
    [self]). *)
Record store := Store {
  heap : gmap loc hobj;
  self_dict : gmap string value
}.

(** What the decorators do to their collaborators, in order. *)
Inductive event :=
| EvFunc (args : list value) (kwargs : gmap string value)
    (* the decorated function was entered with these arguments *)
| EvCallback (cb : value) (arg : value)
    (* the completion callback [cb] was entered with [arg] *)
| EvFetch (params : gmap string value).
    (* [_api._fetch_data(params)] was issued *)

Record world := World {
  st : store;
  trace : list event
}.

Inductive result (A : Type) :=
| Ok (a : A)
| Raise (e : exn).
Arguments Ok {A} a.
Arguments Raise {A} e.

(** Code of a collaborator (the decorated function, a callback, a fetch):
    it sees the store, not the trace. *)
Definition code (A : Type) : Type := store → result A * store.

(** Code of the decorators: it also records what it calls. *)
Definition M (A : Type) : Type := world → result A * world.

Definition ret {A} (a : A) : M A := fun w => (Ok a, w).

Definition bind {A B} (c : M A) (k : A → M B) : M B :=
  fun w =>
    match c w with
    | (Ok a, w') => k a w'
    | (Raise e, w') => (Raise e, w')
    end.

Definition raise {A} (e : exn) : M A := fun w => (Raise e, w).

(** [try: c  except <class>, e: h e]; an exception outside the class
    propagates. *)
Definition try_except {A} (c : M A) (catches : exn → bool) (h : exn → M A) : M A :=
  fun w =>
    match c w with
    | (Ok a, w') => (Ok a, w')
    | (Raise e, w') => if catches e then h e w' else (Raise e, w')
    end.

(** Calling a collaborator: the call is recorded, then its body runs. *)
Definition invoke {A} (ev : event) (c : code A) : M A :=
  fun w =>
    let (r, s') := c (st w) in
    (r, {| st := s'; trace := trace w ++ [ev] |}).

#[global] Instance M_ret : MRet M := @ret.
#[global] Instance M_bind : MBind M := fun A B k c => bind c k.

(** [getattr(ob, name, default)] *)
Definition getattr_default (name : string) (dflt : value) : M value :=
  fun w => (Ok (default dflt (self_dict (st w) !! name)), w).

(** [setattr(ob, name, v)] *)
Definition setattr (name : string) (v : value) : M unit :=
  fun w =>
    (Ok tt,
     {| st := {| heap := heap (st w);
                 self_dict := <[name := v]> (self_dict (st w)) |};
        trace := trace w |}).

(** [copy.copy(v)] of the standard library: immutable values are returned
    as they are; a list is copied one level deep into a new list object
    whose items are the same objects; an object that cannot be copied raises
    what its copy protocol raises. *)
Definition copy_copy (v : value) : M value :=
  fun w =>
    match v with
    | VRef l =>
        match heap (st w) !! l with
        | Some (OList items) =>
            let l' := fresh (dom (heap (st w))) in
            (Ok (VRef l'),
             {| st := {| heap := <[l' := OList items]> (heap (st w));
                         self_dict := self_dict (st w) |};
                trace := trace w |})
        | Some (OUncopyable e) => (Raise e, w)
        | None => (Raise (Exn (OtherException "SystemError") "dangling reference"), w)
        end
    | _ => (Ok v, w)
    end.

(** [==] between two values that are None, integers, strings or functions:
    they compare by value, functions by identity.  On these the definition
    is exact.  It is not a model of [==] on other objects: a reference or an
    exception is only told apart here by identity, where Python compares
    lists by content and runs the [__eq__] of an object's class, which may
    raise; where the sources compare such objects, [eq_item] below is used
    instead. *)
Definition py_eq (v1 v2 : value) : bool := bool_decide (v1 = v2).

(** [str(v)], what ["%s" % v] inserts: None, integers and strings print as
    the interpreter prints them; [str_object] is what printing any other
    object gives. *)
Definition py_str (str_object : value → string) (v : value) : string :=
  match v with
  | VNone => "None"
  | VInt n => pretty n
  | VStr s => s
  | _ => str_object v
  end.

(** [v1 < v2] as Python 2 orders values: None sorts before everything,
    integers by value and before strings, strings byte by byte with a proper
    prefix first; [lt_object] is the order of any other pair of objects. *)
Definition py_lt (lt_object : value → value → bool) (v1 v2 : value) : bool :=
  match v1, v2 with
  | VNone, VNone => false
  | VNone, _ => true
  | _, VNone => false
  | VInt a, VInt b => a <? b
  | VInt _, VStr _ => true
  | VStr _, VInt _ => false
  | VStr a, VStr b => String.ltb a b
  | _, _ => lt_object v1 v2
  end.

(** Truth value of an object: None, zero, the empty string and the empty
    list are false. *)
Definition truthy (h : gmap loc hobj) (v : value) : bool :=
  match v with
  | VNone => false
  | VInt n => negb (n =? 0)
  | VStr s => match s with EmptyString => false | _ => true end
  | VFunc _ => true
  | VExc _ => true
  | VRef l => match h !! l with Some (OList []) => false | _ => true end
  end.

(** [len(v)] *)
Definition py_len (v : value) : M Z :=
  fun w =>
    match v with
    | VStr s => (Ok (Z.of_nat (String.length s)), w)
    | VRef l =>
        match heap (st w) !! l with
        | Some (OList items) => (Ok (Z.of_nat (length items)), w)
        | _ => (Raise (Exn (OtherException "TypeError") "object has no len()"), w)
        end
    | _ => (Raise (Exn (OtherException "TypeError") "object has no len()"), w)
    end.

(** [v[0]] for the values that have a length here, strings and lists (a
    string gives its first character).  No other value comes this far in
    [len(v) and v[0]], since its [len] has raised. *)
Definition py_first (v : value) : M value :=
  fun w =>
    match v with
    | VStr (String c _) => (Ok (VStr (String c EmptyString)), w)
    | VStr EmptyString =>
        (Raise (Exn (OtherException "IndexError") "string index out of range"), w)
    | VRef l =>
        match heap (st w) !! l with
        | Some (OList (x :: _)) => (Ok x, w)
        | Some (OList []) =>
            (Raise (Exn (OtherException "IndexError") "list index out of range"), w)
        | _ => (Raise (Exn (OtherException "TypeError") "object is unsubscriptable"), w)
        end
    | _ => (Raise (Exn (OtherException "TypeError") "object is unsubscriptable"), w)
    end.

(** [bool(v)] in the current heap. *)
Definition py_bool (v : value) : M bool :=
  fun w => (Ok (truthy (heap (st w)) v), w).

(** [lst[i] = v] on a list object. *)
Definition list_setitem (lst : value) (i : nat) (v : value) : M unit :=
  fun w =>
    match lst with
    | VRef l =>
        match heap (st w) !! l with
        | Some (OList items) =>
            if decide (i < length items)%nat then
              (Ok tt,
               {| st := {| heap := <[l := OList (<[i := v]> items)]> (heap (st w));
                           self_dict := self_dict (st w) |};
                  trace := trace w |})
            else
              (Raise (Exn (OtherException "IndexError")
                          "list assignment index out of range"), w)
        | _ => (Raise (Exn (OtherException "TypeError")
                           "object does not support item assignment"), w)
        end
    | _ => (Raise (Exn (OtherException "TypeError")
                       "object does not support item assignment"), w)
    end.

(** [lst[i]] on a list object. *)
Definition list_getitem (lst : value) (i : nat) : M value :=
  fun w =>
    match lst with
    | VRef l =>
        match heap (st w) !! l with
        | Some (OList items) =>
            match items !! i with
            | Some x => (Ok x, w)
            | None =>
                (Raise (Exn (OtherException "IndexError") "list index out of range"), w)
            end
        | _ => (Raise (Exn (OtherException "TypeError") "object is unsubscriptable"), w)
        end
    | _ => (Raise (Exn (OtherException "TypeError") "object is unsubscriptable"), w)
    end.

(** [xrange(a, b)] *)
Definition xrange (a b : Z) : list Z :=
  (fun i => a + Z.of_nat i) <$> seq 0 (Z.to_nat (b - a)).

(** ** Generators over pages

    Both [depaginate] and [Group.members] build a generator of the same
    shape: a first request, whose answer also tells the number of pages,
    then one request for each page number of an [xrange], the page parameter
    being written into the request's dictionary before each; the elements of
    each answer are yielded in order.  A generator is embedded as its state
    and a [next] function; [None] is [StopIteration]. *)

Inductive gen_state :=
| Start
    (* the body has not been entered *)
| Running (buffer : list value) (pages : list Z) (params : gmap string value)
    (* in a [for e in ...: yield e] loop with [buffer] left to yield;
       [pages] are the page numbers the outer loop has still to visit and
       [params] is the request dictionary as updated so far *)
| Finished.

Section generator.
(** A request: it answers the total number of pages and the elements of
    one page. *)
Variable request : gmap string value → M (Z * list value).
(** The request dictionary as the generator finds it. *)
Variable params0 : gmap string value.
(** Where the page loop starts. *)
Variable first_page : Z.

(** The outer [for page in xrange(...)] loop, entered with the inner loop
    exhausted: it requests pages until one has an element to yield. *)
Fixpoint next_page (pages : list Z) (params : gmap string value)
  : M (option (value * gen_state)) :=
  match pages with
  | [] => ret None
  | page :: pages' =>
      let params' := <["page" := VInt page]> params in
      '(_, elems) ← request params';
      match elems with
      | e :: rest => ret (Some (e, Running rest pages' params'))
      | [] => next_page pages' params'
      end
  end.

(** [gen.next()] *)
Definition gen_next (g : gen_state) : M (option (value * gen_state)) :=
  match g with
  | Start =>
      '(total_pages, elems) ← request params0;
      let pages := xrange first_page (total_pages + 1) in
      match elems with
      | e :: rest => ret (Some (e, Running rest pages params0))
      | [] => next_page pages params0
      end
  | Running (e :: rest) pages params =>
      ret (Some (e, Running rest pages params))
  | Running [] pages params => next_page pages params
  | Finished => ret None
  end.

(** The first [n] elements: [n] calls of [next], stopping at
    [StopIteration].  It answers the elements and the generator as it
    stands afterwards. *)
Fixpoint gen_take (n : nat) (g : gen_state) : M (list value * gen_state) :=
  match n with
  | O => ret ([], g)
  | S n' =>
      r ← gen_next g;
      match r with
      | None => ret ([], Finished)
      | Some (e, g') =>
          '(es, g'') ← gen_take n' g';
          ret (e :: es, g'')
      end
  end.
End generator.

(** The builtin [hash].  Its numeric results are the interpreter's: they are
    taken as given, for None, integers and strings; [hash_object] is what
    hashing any other object does (a list raises [TypeError]). *)
Class BuiltinHash := {
  hash_None : Z;
  hash_int : Z → Z;
  hash_str : string → Z;
  hash_object : value → result Z
}.

(** [hash(v)] *)
Definition py_hash `{BuiltinHash} (v : value) : result Z :=
  match v with
  | VNone => Ok hash_None
  | VInt n => Ok (hash_int n)
  | VStr s => Ok (hash_str s)
  | _ => hash_object v
  end.

(** [d[k]] on a dictionary with string keys. *)
Definition dict_getitem (d : gmap string value) (k : string) : result value :=
  match d !! k with
  | Some v => Ok v
  | None => Raise (Exn (OtherException "KeyError") k)
  end.

(** [isinstance(e, KeyError)] *)
Definition is_KeyError (e : exn) : bool :=
  match exn_cls e with
  | OtherException n => bool_decide (n = "KeyError")
  | _ => false
  end.

(** ** Collaborators declared outside the two modules *)

Module user.
(** Modelled from the spec: [lastfm.user.User] is not among the sources.
    The authentication gate reads two attributes of a user, its [name]
    (a string, or None when unknown) and whether its session is
    [authenticated] ("am I authenticated"). *)
Record User := {
  name : option string;
  authenticated : bool
}.
End user.

Module api.
(** Modelled from the spec: [lastfm.api.Api] is not among the sources.
    An API client can "get the currently authenticated session", a call
    that answers a user or raises, and fetches and parses a page of a
    paged resource, the answer telling the total number of pages and the
    page's elements. *)
Record Api := {
  get_authenticated_user : result user.User;
  _fetch_data : gmap string value → code (Z * list value)
}.
End api.

Module decorators.

(** *** [cached_property] *)

(** The getter a property is built from: [func.func_code.co_name] and the
    body, applied to [ob]. *)
Record getter := Getter {
  co_name : string;
  call : code value
}.

Definition attribute_name (func : getter) : string := "_" +:+ co_name func.

(** The [wrapper] that [cached_property(func)] installs as [fget]. *)
Definition cached_property (func : getter) : M value :=
  cache_attribute ← getattr_default (attribute_name func) VNone;
  cache_attribute ←
    (if is_None cache_attribute then
       cache_attribute ← invoke (EvFunc [] ∅) (call func);
       setattr (attribute_name func) cache_attribute;;
       ret cache_attribute
     else ret cache_attribute);
  try_except (copy_copy cache_attribute) is_LastfmError
             (fun _ => ret cache_attribute).

(** *** [top_property] *)

(** [getattr(ob, name)]: a property of the class is run, otherwise the
    instance's dictionary is read; [props] are the properties of [ob]'s
    class. *)
Definition getattr (props : string → option (M value)) (name : string) : M value :=
  match props name with
  | Some fget => fget
  | None =>
      fun w =>
        match self_dict (st w) !! name with
        | Some v => (Ok v, w)
        | None => (Raise (Exn (OtherException "AttributeError") name), w)
        end
  end.

(** The [wrapper] that [top_property(list_property_name)(func)] installs as
    [fget]: [len(top_list) and top_list[0] or None]. *)
Definition top_property (props : string → option (M value))
    (list_property_name : string) : M value :=
  top_list ← getattr props list_property_name;
  n ← py_len top_list;
  if n =? 0 then ret VNone          (* [0 or None] *)
  else
    x ← py_first top_list;           (* [len and x] is [x] *)
    b ← py_bool x;
    if (b : bool) then ret x else ret VNone. (* [x or None] *)

(** *** [authenticate] *)

(** The value of a [_subject] attribute: a [User] or something else. *)
Inductive subject_attr :=
| SubjectUser (u : user.User)
| SubjectOther.

(** The value of an [_api] attribute: an [Api] or something else. *)
Inductive api_attr :=
| ApiClient (a : api.Api)
| ApiOther.

(** What the gate inspects of the object a guarded method is called on. *)
Record caller := {
  as_User : option user.User;        (* [isinstance(self, User)] *)
  user : option user.User;           (* [hasattr(self, 'user')] *)
  _subject : option subject_attr;    (* [hasattr(self, '_subject')] *)
  _api : option api_attr             (* [hasattr(self, '_api')] *)
}.

(** ["%s" % username] *)
Definition format_s (username : option string) : string :=
  match username with
  | None => "None"
  | Some s => s
  end.

Definition permission_denied (username : option string) : exn :=
  Exn AuthenticationFailedError
      ("user '" +:+ format_s username +:+
       "' does not have permissions to access the service").

Section authenticate.
(** The guarded function, applied to [self]. *)
Variable func : list value → gmap string value → code value.

Definition authenticate (self : caller)
    (args : list value) (kwargs : gmap string value) : M value :=
  let call_func := invoke (EvFunc args kwargs) (func args kwargs) in
  match as_User self with
  | Some u =>
      if user.authenticated u then call_func
      else raise (permission_denied (user.name u))
  | None =>
  match user self with
  | Some u =>
      if user.authenticated u then call_func
      else raise (permission_denied (user.name u))
  | None =>
  match _subject self with
  | Some (SubjectUser u) =>
      if user.authenticated u then call_func
      else raise (permission_denied (user.name u))
  | _ =>
  match _api self with
  | Some (ApiClient a) =>
      match api.get_authenticated_user a with
      | Ok u =>
          try_except call_func is_AuthenticationFailedError
                     (fun _ => raise (permission_denied (user.name u)))
      | Raise e =>
          if is_AuthenticationFailedError e
          then raise (permission_denied None)
          else raise e
      end
  | _ => raise (permission_denied None)
  end end end end.
End authenticate.

(** *** [depaginate] *)

Section depaginate.
(** The decorated function: called with its arguments it makes a
    generator that requests one page, yields the total number of pages
    and then the page's elements. *)
Variable func : list value → gmap string value → code (Z * list value).
Variable args : list value.
Variable kwargs : gmap string value.

Definition call_func (kwargs : gmap string value) : M (Z * list value) :=
  invoke (EvFunc args kwargs) (func args kwargs).

(** [next] of the generator that the call of [wrapper] hands to
    [lazylist]: the pages of [xrange(2, total_pages+1)] follow the
    first. *)
Definition depaginate (g : gen_state) : M (option (value * gen_state)) :=
  gen_next call_func kwargs 2 g.

Definition depaginate_take (n : nat) (g : gen_state) : M (list value * gen_state) :=
  gen_take call_func kwargs 2 n g.
End depaginate.

(** *** [async_callback] *)

(** [x == a] as [args.remove(a)] evaluates it for an item [x], [a] being
    a function.  None, integers, strings, exceptions and lists are not equal
    to a function, and a function is equal to itself only.  For any other
    object the [__eq__] of its class runs: [eq_object] is what it does, and
    it may raise (that of [Group] reads [other.name], which a function does
    not have). *)
Definition eq_item (eq_object : loc → value → code bool) (x a : value) : code bool :=
  fun s =>
    match x with
    | VRef l =>
        match heap s !! l with
        | Some (OList _) => (Ok false, s)
        | _ => eq_object l a s
        end
    | _ => (Ok (bool_decide (x = a)), s)
    end.

(** [args.remove(a)]: the items are compared with [a] in order, the first
    that is equal goes; a comparison that raises ends the search with its
    exception, and [ValueError] is raised when no item is equal. *)
Fixpoint list_remove (eq_object : loc → value → code bool)
    (a : value) (args : list value) : code (list value) :=
  fun s =>
    match args with
    | [] =>
        (Raise (Exn (OtherException "ValueError") "list.remove(x): x not in list"), s)
    | x :: xs =>
        match eq_item eq_object x a s with
        | (Ok true, s') => (Ok xs, s')
        | (Ok false, s') =>
            match list_remove eq_object a xs s' with
            | (Ok xs', s'') => (Ok (x :: xs'), s'')
            | (Raise e, s'') => (Raise e, s'')
            end
        | (Raise e, s') => (Raise e, s')
        end
    end.

(** Code of a collaborator run by a decorator without being recorded. *)
Definition lift {A} (c : code A) : M A :=
  fun w =>
    let (r, s') := c (st w) in
    (r, {| st := s'; trace := trace w |}).

(** [for a in args: if callable(a): ...; break]: the first callable item. *)
Definition first_callable (args : list value) : option value :=
  head (filter (fun a => callable a = true) args).

Section async_callback.
(** The wrapped function, applied to [self]. *)
Variable func : list value → gmap string value → code value.
(** What calling the callable [cb] on one argument does. *)
Variable apply : value → value → code value.
(** What the [__eq__] of the object at a location does. *)
Variable eq_object : loc → value → code bool.

(** The body of the thread, [async_call]. *)
Definition async_call (callback : value)
    (args : list value) (kwargs : gmap string value) : M value :=
  result ← try_except (invoke (EvFunc args kwargs) (func args kwargs))
                      is_Exception
                      (fun e => ret (VExc e));
  invoke (EvCallback callback result) (apply callback result).

(** [wrapper(self, *args, **kwargs)].  It answers what the call returns
    and the thread it started, if any. *)
Definition async_callback (args : list value) (kwargs : gmap string value)
  : M (value * option (M value)) :=
  '(callback, args) ←
    match first_callable args with
    | Some a =>
        args' ← lift (list_remove eq_object a args);
        ret (a, args')
    | None => ret (VNone, args)
    end;
  let '(callback, kwargs) :=
    match kwargs !! "callback" with
    | Some cb => (cb, delete "callback" kwargs)
    | None => (callback, kwargs)
    end in
  if negb (is_None callback) && callable callback then
    ret (VNone, Some (async_call callback args kwargs))
  else
    v ← invoke (EvFunc args kwargs) (func args kwargs);
    ret (v, None).
End async_callback.

(** *** [_get_arg_string] *)

(** What the function reads of an argument specification: the names of the
    arguments and the tuple of default values, or None. *)
Record ArgSpec := {
  args : list string;
  defaults : option (list value)
}.

(** [lst.remove(x)] on a list of strings; [None] is [ValueError]. *)
Fixpoint str_list_remove (x : string) (lst : list string) : option (list string) :=
  match lst with
  | [] => None
  | y :: ys =>
      if decide (y = x) then Some ys
      else match str_list_remove x ys with
           | Some ys' => Some (y :: ys')
           | None => None
           end
  end.

(** [lst[-k:]] *)
Definition slice_last {A} (k : nat) (lst : list A) : list A :=
  match k with
  | O => lst
  | _ => drop (length lst - k) lst
  end.

(** [lst[:-k]] *)
Definition slice_but_last {A} (k : nat) (lst : list A) : list A :=
  match k with
  | O => []
  | _ => take (length lst - k) lst
  end.

Section _get_arg_string.
Variable str_object : value → string.

(** [["%s = %s" % (defargs[i], defaults[i]) for i in xrange(len(defargs))]];
    [defaults[i]] raises [IndexError] when the defaults run out. *)
Fixpoint format_defaults (defargs : list string) (defaults : list value)
  : result (list string) :=
  match defargs, defaults with
  | [], _ => Ok []
  | _ :: _, [] =>
      Raise (Exn (OtherException "IndexError") "tuple index out of range")
  | a :: defargs', d :: defaults' =>
      match format_defaults defargs' defaults' with
      | Ok items => Ok ((a +:+ " = " +:+ py_str str_object d) :: items)
      | Raise e => Raise e
      end
  end.

(** [s != ''] *)
Definition nonempty (s : string) : bool :=
  match s with EmptyString => false | _ => true end.

(** [_get_arg_string(argspecs)].  It answers what is returned or raised,
    the argument specification as the call leaves it ([args.remove] works in
    place) and the lines printed. *)
Definition _get_arg_string (argspecs : ArgSpec)
  : result string * ArgSpec * list string :=
  match str_list_remove "self" (args argspecs) with
  | None =>
      (Raise (Exn (OtherException "ValueError") "list.remove(x): x not in list"),
       argspecs, [])
  | Some args =>
      let argspecs' := {| args := args; defaults := defaults argspecs |} in
      let arg_str :=
        match defaults argspecs with
        | Some defaults =>
            let defargs := slice_last (length defaults) args in
            let nondefargs := slice_but_last (length defaults) args in
            let nondefargs_str := String.concat ", " nondefargs in
            match format_defaults defargs defaults with
            | Raise e => Raise e
            | Ok items =>
                let defargs_str := String.concat ", " items in
                if nonempty nondefargs_str && nonempty defargs_str then
                  Ok (nondefargs_str +:+ ", " +:+ defargs_str)
                else if nonempty nondefargs_str then Ok nondefargs_str
                else if nonempty defargs_str then Ok defargs_str
                else Ok EmptyString
            end
        | None => Ok (String.concat ", " args)
        end in
      match arg_str with
      | Ok s => (Ok s, argspecs', [s])
      | Raise e => (Raise e, argspecs', [])
      end
  end.
End _get_arg_string.

End decorators.

Module group.

(** The attributes [init] sets. *)
Record Group := {
  _api : api.Api;
  _name : value
}.

(** [Group.init(self, api, name = None)] *)
Definition init (api : decorators.api_attr) (name : value) : result Group :=
  match api with
  | decorators.ApiClient a => Ok {| _api := a; _name := name |}
  | decorators.ApiOther =>
      Raise (Exn InvalidParametersError
                 "api reference must be supplied as an argument")
  end.

(** The property [name]. *)
Definition name (self : Group) : value := _name self.

(** [Group._default_params(self, extra_params)] *)
Definition _default_params (self : Group) (extra_params : gmap string value)
  : M (gmap string value) :=
  b ← py_bool (name self);
  if negb b then raise (Exn InvalidParametersError "group has to be provided.")
  else
    (* [params = {'group': self.name}; params.update(extra_params)] *)
    ret (extra_params ∪ {["group" := name self]}).

(** [self._api._fetch_data(params).find('members')], read as the total
    number of pages and the users of the page. *)
Definition fetch_members (self : Group) (params : gmap string value)
  : M (Z * list value) :=
  invoke (EvFetch params) (api._fetch_data (_api self) params).

(** The getter of [members] up to [return gen()]: the request dictionary
    the generator closes over. *)
Definition members_params (self : Group) : M (gmap string value) :=
  _default_params self {["method" := VStr "group.getMembers"]}.

(** [next] of the generator [gen] of [members]: the pages of
    [xrange(1, total_pages+1)] follow the first request. *)
Definition members (self : Group) (params : gmap string value)
    (g : gen_state) : M (option (value * gen_state)) :=
  gen_next (fetch_members self) params 1 g.

Definition members_take (self : Group) (params : gmap string value)
    (n : nat) (g : gen_state) : M (list value * gen_state) :=
  gen_take (fetch_members self) params 1 n g.

Section hashing.
Context `{BuiltinHash}.

(** [Group._hash_func], called with positional and keyword arguments *)
Definition _hash_func (args : list value) (kwds : gmap string value) : result Z :=
  match
    match dict_getitem kwds "name" with
    | Ok v => py_hash v
    | Raise e => Raise e
    end
  with
  | Ok h => Ok h
  | Raise e =>
      if is_KeyError e
      then Raise (Exn InvalidParametersError "name has to be provided for hashing")
      else Raise e
  end.

(** [Group.__hash__(self)] *)
Definition __hash__ (self : Group) : result Z :=
  _hash_func [] {["name" := name self]}.
End hashing.

(** [Group.__eq__(self, other)] *)
Definition __eq__ (self other : Group) : bool :=
  py_eq (name self) (name other).

(** [Group.__lt__(self, other)] *)
Definition __lt__ (lt_object : value → value → bool) (self other : Group) : bool :=
  py_lt lt_object (name self) (name other).

(** [Group.__repr__(self)] *)
Definition __repr__ (str_object : value → string) (self : Group) : string :=
  "<lastfm.Group: " +:+ py_str str_object (name self) +:+ ">".

End group.

(** * Specification vocabulary *)

(** How often the decorated function was entered, according to a trace. *)
Definition is_EvFunc (ev : event) : bool :=
  match ev with EvFunc _ _ => true | _ => false end.

Definition invocations (t : list event) : nat :=
  length (List.filter is_EvFunc t).

(** The empty world. *)
Definition w0 : world := {| st := {| heap := ∅; self_dict := ∅ |}; trace := [] |}.

(** A world whose instance has a list attribute with a falsy first item. *)
Definition w_top : world :=
  {| st := {| heap := {[ 1%positive := OList [VInt 0; VInt 5] ]};
              self_dict := {[ "top_albums" := VRef 1 ]} |};
     trace := [] |}.


(** ** Vocabulary for [cached_property] *)

(** The slot of the property is unset: the attribute is absent, or None. *)
Definition unset (func : decorators.getter) (w : world) : Prop :=
  default VNone (self_dict (st w) !! decorators.attribute_name func) = VNone.

(** The slot of the property holds [v], which is not None. *)
Definition cached (func : decorators.getter) (w : world) (v : value) : Prop :=
  self_dict (st w) !! decorators.attribute_name func = Some v ∧ v ≠ VNone.

(** The store after [setattr(ob, attribute_name, v)]. *)
Definition store_slot (func : decorators.getter) (v : value) (s : store) : store :=
  {| heap := heap s;
     self_dict := <[decorators.attribute_name func := v]> (self_dict s) |}.

(** Answering a read from the stored value [v] alone: a copy of it, or [v]
    itself when copying raises a [LastfmError]. *)
Definition copy_or_same (v : value) : M value :=
  try_except (copy_copy v) is_LastfmError (fun _ => ret v).

(** [n] reads of the property one after the other; a read that raises does
    not stop the reader. *)
Fixpoint read_n (func : decorators.getter) (n : nat) (w : world)
  : list (result value) * world :=
  match n with
  | O => ([], w)
  | S k =>
      let (r, w1) := decorators.cached_property func w in
      let (rs, w2) := read_n func k w1 in
      (r :: rs, w2)
  end.

(** [n] answers from the stored value [v], one after the other. *)
Fixpoint serve_n (v : value) (n : nat) (w : world) : list (result value) * world :=
  match n with
  | O => ([], w)
  | S k =>
      let (r, w1) := copy_or_same v w in
      let (rs, w2) := serve_n v k w1 in
      (r :: rs, w2)
  end.

(** A getter that returns None and touches nothing. *)
Definition getter_None : decorators.getter :=
  {| decorators.co_name := "top_fans";
     decorators.call := fun s => (Ok VNone, s) |}.

(** A getter that returns the integer 7 and touches nothing. *)
Definition getter_7 : decorators.getter :=
  {| decorators.co_name := "playcount";
     decorators.call := fun s => (Ok (VInt 7), s) |}.

(** The function is entered once in [S n] reads that start in [w]. *)
Definition computed_once (func : decorators.getter) (w : world) (n : nat) : Prop :=
  invocations (trace (snd (read_n func (S n) w))) = S (invocations (trace w)).

(** A getter that fails and touches nothing. *)
Definition getter_fail : decorators.getter :=
  {| decorators.co_name := "events";
     decorators.call := fun s => (Raise (Exn (OtherException "IOError") "timed out"), s) |}.

(** A getter that makes an empty list, at location 1, and returns it. *)
Definition getter_empty : decorators.getter :=
  {| decorators.co_name := "events";
     decorators.call := fun s =>
       (Ok (VRef 1),
        {| heap := <[1%positive := OList []]> (heap s); self_dict := self_dict s |}) |}.

(** What a value looks like from outside, nested lists included, down to
    [depth] levels. *)
#[warnings="-register-all"] Inductive shape :=
| SAtom (v : value)
| SList (items : list shape)
| SOpaque.

Fixpoint snapshot (depth : nat) (h : gmap loc hobj) (v : value) : shape :=
  match v with
  | VRef l =>
      match depth with
      | O => SOpaque
      | S d =>
          match h !! l with
          | Some (OList items) => SList (map (snapshot d h) items)
          | _ => SOpaque
          end
      end
  | _ => SAtom v
  end.

(** A world where the slot of [getter_None] already holds the list
    [[[1]]]. *)
Definition w_nested : world :=
  {| st := {| heap := {[ 1%positive := OList [VRef 2];
                         2%positive := OList [VInt 1] ]};
              self_dict := {[ "_top_fans" := VRef 1 ]} |};
     trace := [] |}.

(** A reader that changes the nested list of what it read:
    [cp = ob.top_fans; cp[0][0] = 2]. *)
Definition mutate_nested (func : decorators.getter) : M unit :=
  cp ← decorators.cached_property func;
  inner ← list_getitem cp 0;
  list_setitem inner 0 (VInt 2).

(** A world where the slot of [getter_None] holds a generator, which the
    standard library cannot copy. *)
Definition generator_not_copyable : exn :=
  Exn (OtherException "TypeError") "object.__new__(generator) is not safe".

Definition w_generator : world :=
  {| st := {| heap := {[ 1%positive := OUncopyable generator_not_copyable ]};
              self_dict := {[ "_top_fans" := VRef 1 ]} |};
     trace := [] |}.

(** A world where the slot of [getter_None] holds an entity of the package,
    whose copy raises a [LastfmError]. *)
Definition entity_not_copyable : exn :=
  Exn InvalidParametersError "name has to be provided for hashing".

Definition w_entity : world :=
  {| st := {| heap := {[ 1%positive := OUncopyable entity_not_copyable ]};
              self_dict := {[ "_top_fans" := VRef 1 ]} |};
     trace := [] |}.

(** A world where the slot of [getter_None] holds the list [[1, 2]]. *)
Definition w_flat : world :=
  {| st := {| heap := {[ 1%positive := OList [VInt 1; VInt 2] ]};
              self_dict := {[ "_top_fans" := VRef 1 ]} |};
     trace := [] |}.

(** ** Vocabulary for [authenticate] *)

(** The session the gate resolves from the calling object, in the order the
    claim lists: the object itself when it is a user, its [user] attribute,
    its [_subject] when that is a user, the authenticated user of its API
    client.  The lookup through the API client can also fail with an error
    that is not an authentication error. *)
Inductive session :=
| Authenticated
| NotAuthenticated (username : option string)
| LookupFailed (e : exn).

Definition session_of (u : user.User) : session :=
  if user.authenticated u then Authenticated else NotAuthenticated (user.name u).

Definition resolve_session (self : decorators.caller) : session :=
  match decorators.as_User self, decorators.user self,
        decorators._subject self, decorators._api self with
  | Some u, _, _, _ => session_of u
  | None, Some u, _, _ => session_of u
  | None, None, Some (decorators.SubjectUser u), _ => session_of u
  | None, None, _, Some (decorators.ApiClient a) =>
      match api.get_authenticated_user a with
      | Ok _ => Authenticated
      | Raise e =>
          if is_AuthenticationFailedError e then NotAuthenticated None
          else LookupFailed e
      end
  | None, None, _, _ => NotAuthenticated None
  end.

(** A guarded function that returns 1 and touches nothing. *)
Definition func_one : list value → gmap string value → code value :=
  fun _ _ s => (Ok (VInt 1), s).

Definition alice : user.User :=
  {| user.name := Some "alice"; user.authenticated := true |}.

Definition bob : user.User :=
  {| user.name := Some "bob"; user.authenticated := false |}.

(** A user object calling a guarded method of its own. *)
Definition caller_of (u : user.User) : decorators.caller :=
  {| decorators.as_User := Some u; decorators.user := None;
     decorators._subject := None; decorators._api := None |}.

Definition connection_failed : exn :=
  Exn (OtherException "URLError") "connection refused".

(** An API client whose lookup of the authenticated user fails in transit. *)
Definition api_offline : api.Api :=
  {| api.get_authenticated_user := Raise connection_failed;
     api._fetch_data := fun _ s => (Raise connection_failed, s) |}.

(** An object that only has an [_api] attribute, the client being
    offline. *)
Definition caller_offline : decorators.caller :=
  {| decorators.as_User := None; decorators.user := None;
     decorators._subject := None;
     decorators._api := Some (decorators.ApiClient api_offline) |}.

(** ** Vocabulary for [async_callback] *)



(** The search for a positional callback: the first callable argument, if
    any, is taken out by [args.remove].  It answers the positional arguments
    the function is to be called with, or raises what a comparison
    raised. *)
Definition stripped (eq_object : loc → value → code bool) (args : list value)
  : code (list value) :=
  match decorators.first_callable args with
  | Some a => decorators.list_remove eq_object a args
  | None => fun s => (Ok args, s)
  end.

(** The calling thread after the search for a positional callback, which
    left the store [s]: nothing has been entered. *)
Definition searched (w : world) (s : store) : world :=
  {| st := s; trace := trace w |}.


(** The call was dispatched from the world [w]: [wrapper] returned None
    with a thread started, and left [w] as it was. *)
Definition dispatched (r : result (value * option (M value)) * world) (w : world)
    (thread : M value) : Prop :=
  r = (Ok (VNone, Some thread), w).

(** The call was made on the calling thread with the arguments [args] and
    [kwargs]: the function was entered once, no thread was started, and the
    call returned what the function returned or raised what it raised. *)
Definition synchronous (func : list value → gmap string value → code value)
    (r : result (value * option (M value)) * world) (w : world)
    (args : list value) (kwargs : gmap string value) : Prop :=
  snd r = {| st := snd (func args kwargs (st w));
             trace := trace w ++ [EvFunc args kwargs] |} ∧
  fst r = match fst (func args kwargs (st w)) with
          | Ok v => Ok (v, None)
          | Raise e => Raise e
          end.

(** A callback that returns None and touches nothing. *)
Definition apply_noop : value → value → code value :=
  fun _ _ s => (Ok VNone, s).





(** Objects whose [__eq__] is that of [Group], [self.name == other.name]:
    against a function it raises. *)
Definition no_attribute_name : exn :=
  Exn (OtherException "AttributeError") "'function' object has no attribute 'name'".

Definition eq_by_name : loc → value → code bool :=
  fun _ _ s => (Raise no_attribute_name, s).

(** ** Vocabulary for [Group] *)

(** A stand-in for the interpreter's [hash], to run the examples. *)
Definition sample_hash : BuiltinHash :=
  {| hash_None := 1234567;
     hash_int := fun n => n;
     hash_str := fun s => Z.of_nat (String.length s);
     hash_object := fun _ => Raise (Exn (OtherException "TypeError") "unhashable type") |}.

(** An API client that answers one page with no users. *)
Definition api_empty : api.Api :=
  {| api.get_authenticated_user := Raise (Exn AuthenticationFailedError "no session");
     api._fetch_data := fun _ s => (Ok (1, []), s) |}.

(** [Group(api, name = None)] as [init] leaves it. *)
Definition nameless : group.Group :=
  {| group._api := api_offline; group._name := VNone |}.

Definition jazz : group.Group :=
  {| group._api := api_offline; group._name := VStr "Jazz" |}.

Definition jazz' : group.Group :=
  {| group._api := api_empty; group._name := VStr "Jazz" |}.

(** ** Vocabulary for the paged sequences *)

(** The page a request dictionary asks for: the service answers the first
    page when no page is named. *)
Definition page_of (params : gmap string value) : Z :=
  match params !! "page" with
  | Some (VInt p) => p
  | _ => 1
  end.

(** The requests the page loop issues for the page numbers [ps], the
    dictionary being updated in place from [params]. *)
Fixpoint page_events (ev : gmap string value → event) (ps : list Z)
    (params : gmap string value) : list event :=
  match ps with
  | [] => []
  | p :: ps' =>
      ev (<["page" := VInt p]> params)
        :: page_events ev ps' (<["page" := VInt p]> params)
  end.

(** An API client for a group of three members on two pages. *)
Definition api_two_pages : api.Api :=
  {| api.get_authenticated_user := Raise (Exn AuthenticationFailedError "no session");
     api._fetch_data := fun params s =>
       (Ok (2, if page_of params =? 2 then [VStr "carol"]
               else [VStr "alice"; VStr "bob"]), s) |}.

Definition jazz_club : group.Group :=
  {| group._api := api_two_pages; group._name := VStr "Jazz" |}.

Definition jazz_club_params : gmap string value :=
  {[ "method" := VStr "group.getMembers" ]} ∪ {[ "group" := VStr "Jazz" ]}.

(** A decorated search function over the same two pages. *)
Definition search_two_pages : list value → gmap string value → code (Z * list value) :=
  fun _ kwargs s =>
    (Ok (2, if page_of kwargs =? 2 then [VStr "carol"]
            else [VStr "alice"; VStr "bob"]), s).

(** ** Vocabulary for the further properties *)


(** The user the gate obtained from the API client, when that is where the
    session came from. *)
Definition api_user (self : decorators.caller) : option user.User :=
  match decorators.as_User self, decorators.user self,
        decorators._subject self, decorators._api self with
  | None, None, Some (decorators.SubjectUser _), _ => None
  | None, None, _, Some (decorators.ApiClient a) =>
      match api.get_authenticated_user a with
      | Ok u => Some u
      | Raise _ => None
      end
  | _, _, _, _ => None
  end.

(** A guarded function that fails with an authentication error of its
    own. *)
Definition func_denied : list value → gmap string value → code value :=
  fun _ _ s => (Raise (Exn AuthenticationFailedError "session expired"), s).

(** An API client with the authenticated user alice. *)
Definition api_alice : api.Api :=
  {| api.get_authenticated_user := Ok alice;
     api._fetch_data := fun _ s => (Ok (1, []), s) |}.

(** An object that only has an [_api] attribute, with alice's session. *)
Definition caller_via_api : decorators.caller :=
  {| decorators.as_User := None; decorators.user := None;
     decorators._subject := None;
     decorators._api := Some (decorators.ApiClient api_alice) |}.

(** A decorated search function whose second page cannot be fetched. *)
Definition search_page_2_down : list value → gmap string value → code (Z * list value) :=
  fun _ kwargs s =>
    if page_of kwargs =? 2 then (Raise connection_failed, s)
    else (Ok (2, [VStr "alice"; VStr "bob"]), s).

(** Stand-ins for what the interpreter does with objects that are neither
    None, integers nor strings, to run examples. *)
Definition str_opaque : value → string := fun _ => "<object>".
Definition lt_opaque : value → value → bool := fun _ _ => false.

Definition blues : group.Group :=
  {| group._api := api_offline; group._name := VStr "Blues" |}.

Definition rock : group.Group :=
  {| group._api := api_offline; group._name := VStr "Rock" |}.

(** The properties of a class that memoizes the getter [func] under its
    own name. *)
Definition class_with (func : decorators.getter) : string → option (M value) :=
  fun name =>
    if decide (name = decorators.co_name func)
    then Some (decorators.cached_property func)
    else None.

(** A getter that makes the list [[5, 6]], at location 1, and returns it. *)
Definition getter_albums : decorators.getter :=
  {| decorators.co_name := "top_albums";
     decorators.call := fun s =>
       (Ok (VRef 1),
        {| heap := <[1%positive := OList [VInt 5; VInt 6]]> (heap s);
           self_dict := self_dict s |}) |}.

(** The argument specification of
    [def get_top_tags(self, limit = None, page = 1)] with a leading plain
    argument [user]. *)
Definition spec_with_defaults : decorators.ArgSpec :=
  {| decorators.args := ["self"; "user"; "limit"; "page"];
     decorators.defaults := Some [VNone; VInt 1] |}.

(** The argument specification of [def get_info(self, artist, title)]. *)
Definition spec_plain : decorators.ArgSpec :=
  {| decorators.args := ["self"; "artist"; "title"];
     decorators.defaults := None |}.

(** An argument specification with an empty tuple of defaults. *)
Definition spec_empty_defaults : decorators.ArgSpec :=
  {| decorators.args := ["self"; "artist"];
     decorators.defaults := Some [] |}.
(** * Proof steps *)

(** Running one sequencing step of [M]. *)
Ltac step_M := unfold mbind, M_bind, bind.

(** * [top_property] *)

(** C10. For an object whose list attribute reads as a list, the property
    built by [top_property] is None when the list is empty, the first
    element when that element is truthy, and None when the list is not empty
    but its first element is falsy. *)
Theorem top_property_first_or_None :
  ∀ (props : string → option (M value)) (list_property_name : string)
    (w w1 : world) (l : loc) (items : list value),
    decorators.getattr props list_property_name w = (Ok (VRef l), w1) →
    heap (st w1) !! l = Some (OList items) →
    decorators.top_property props list_property_name w =
      (Ok match items with
          | [] => VNone
          | x :: _ => if truthy (heap (st w1)) x then x else VNone
          end, w1).
Proof.
  intros props lname w w1 l items Hget Hl.
  unfold decorators.top_property, mbind, M_bind, bind.
  rewrite Hget. unfold py_len. rewrite Hl.
  destruct items as [|x rest]; [reflexivity|].
  replace (Z.of_nat (length (x :: rest)) =? 0) with false
    by (symmetry; apply Z.eqb_neq; simpl length; lia).
  unfold py_first. rewrite Hl. unfold py_bool.
  destruct (truthy (heap (st w1)) x); reflexivity.
Qed.

Lemma top_property_first_or_None_witness :
  decorators.top_property (fun _ => None) "top_albums" w_top = (Ok VNone, w_top).
Proof.
  apply (top_property_first_or_None (fun _ => None) "top_albums" w_top w_top
           1%positive [VInt 0; VInt 5]); reflexivity.
Defined.

(** A first item that is 0, the empty string or None is not returned. *)
Example top_property_falsy_first :
  ∀ x : value,
    x ∈ [VInt 0; VStr EmptyString; VNone] →
    decorators.top_property (fun _ => None) "top_albums"
      {| st := {| heap := {[ 1%positive := OList [x; VInt 5] ]};
                  self_dict := {[ "top_albums" := VRef 1 ]} |};
         trace := [] |} =
    (Ok VNone,
     {| st := {| heap := {[ 1%positive := OList [x; VInt 5] ]};
                 self_dict := {[ "top_albums" := VRef 1 ]} |};
        trace := [] |}).
Proof.
  intros x Hx. repeat (apply elem_of_cons in Hx as [->|Hx]); [reflexivity..|].
  inversion Hx.
Qed.

(** * [cached_property] *)

Section cached_property_facts.
Variable func : decorators.getter.

Lemma copy_copy_frame (v : value) (w w' : world) (r : result value) :
  copy_copy v w = (r, w') →
  self_dict (st w') = self_dict (st w) ∧ trace w' = trace w.
Proof.
  unfold copy_copy. intros Hc.
  destruct v; try (inversion Hc; subst; auto; fail).
  destruct (heap (st w) !! l) as [[items|e]|]; inversion Hc; subst; auto.
Qed.

Lemma copy_or_same_frame (v : value) (w w' : world) (r : result value) :
  copy_or_same v w = (r, w') →
  self_dict (st w') = self_dict (st w) ∧ trace w' = trace w.
Proof.
  unfold copy_or_same, try_except. intros Hc.
  destruct (copy_copy v w) as [[a|e] w1] eqn:Hcopy;
    apply copy_copy_frame in Hcopy.
  - inversion Hc; subst; auto.
  - destruct (is_LastfmError e); inversion Hc; subst; auto.
Qed.

(** A read of a filled slot is answered from the stored value. *)
Lemma read_cached (w : world) (v : value) :
  cached func w v →
  decorators.cached_property func w = copy_or_same v w.
Proof.
  intros [Hslot Hv].
  unfold decorators.cached_property, mbind, M_bind, bind, getattr_default.
  rewrite Hslot. simpl.
  destruct v; try reflexivity. contradiction.
Qed.

(** A read of an unset slot whose computation returns. *)
Lemma read_unset_ok (w : world) (v : value) (s1 : store) :
  unset func w →
  decorators.call func (st w) = (Ok v, s1) →
  decorators.cached_property func w =
    copy_or_same v {| st := store_slot func v s1;
                      trace := trace w ++ [EvFunc [] ∅] |}.
Proof.
  intros Hun Hcall.
  unfold decorators.cached_property, mbind, M_bind, bind, getattr_default.
  unfold unset in Hun. rewrite Hun. simpl.
  unfold invoke. rewrite Hcall. reflexivity.
Qed.

(** A read of an unset slot whose computation raises. *)
Lemma read_unset_raise (w : world) (e : exn) (s1 : store) :
  unset func w →
  decorators.call func (st w) = (Raise e, s1) →
  decorators.cached_property func w =
    (Raise e, {| st := s1; trace := trace w ++ [EvFunc [] ∅] |}).
Proof.
  intros Hun Hcall.
  unfold decorators.cached_property, mbind, M_bind, bind, getattr_default.
  unfold unset in Hun. rewrite Hun. simpl.
  unfold invoke. rewrite Hcall. reflexivity.
Qed.

Lemma invocations_app (t1 t2 : list event) :
  invocations (t1 ++ t2) = (invocations t1 + invocations t2)%nat.
Proof. unfold invocations. rewrite List.filter_app, length_app. reflexivity. Qed.

Lemma invocations_snoc (t : list event) (args : list value)
    (kwargs : gmap string value) :
  invocations (t ++ [EvFunc args kwargs]) = S (invocations t).
Proof. rewrite invocations_app. cbn. lia. Qed.

(** Whatever the computation does, a read of an unset slot enters it
    once. *)
Lemma read_unset_invokes (w : world) :
  unset func w →
  invocations (trace (snd (decorators.cached_property func w))) =
    S (invocations (trace w)).
Proof.
  intros Hun.
  destruct (decorators.call func (st w)) as [[v|e] s1] eqn:Hcall.
  - rewrite (read_unset_ok w v s1 Hun Hcall).
    destruct (copy_or_same v _) as [r w'] eqn:Hc.
    apply copy_or_same_frame in Hc as [_ Ht]. simpl in *.
    rewrite Ht. apply invocations_snoc.
  - rewrite (read_unset_raise w e s1 Hun Hcall). simpl.
    apply invocations_snoc.
Qed.

(** Reads of a filled slot leave it filled and enter nothing. *)
Lemma read_cached_frame (w : world) (v : value) :
  cached func w v →
  cached func (snd (decorators.cached_property func w)) v ∧
  trace (snd (decorators.cached_property func w)) = trace w.
Proof.
  intros Hc. rewrite (read_cached w v Hc).
  destruct (copy_or_same v w) as [r w'] eqn:Hcs.
  apply copy_or_same_frame in Hcs as [Hd Ht]. simpl.
  split; [|exact Ht]. destruct Hc as [Hs Hv]. split; [|exact Hv].
  rewrite Hd. exact Hs.
Qed.

Lemma read_n_cached (n : nat) (w : world) (v : value) :
  cached func w v →
  read_n func n w = serve_n v n w ∧
  cached func (snd (read_n func n w)) v ∧
  trace (snd (read_n func n w)) = trace w.
Proof.
  revert w. induction n as [|n IH]; intros w Hc; simpl.
  - auto.
  - destruct (read_cached_frame w v Hc) as [Hc1 Ht1].
    rewrite (read_cached w v Hc) in *.
    destruct (copy_or_same v w) as [r w1]. simpl in *.
    destruct (IH w1 Hc1) as (Heq & Hc2 & Ht2).
    rewrite Heq in *.
    destruct (serve_n v n w1) as [rs w2]. simpl in *.
    split; [reflexivity|]. split; [exact Hc2|]. congruence.
Qed.
End cached_property_facts.

(** C1, amended. When the slot is unset and the computation returns a value
    other than None, the function is entered exactly once, on the first
    read, its result is stored in the slot, and every later read is answered
    from the stored value without entering the function again. *)
Theorem cached_property_computed_once :
  ∀ (func : decorators.getter) (w : world) (v : value) (s1 : store) (n : nat),
    unset func w →
    decorators.call func (st w) = (Ok v, s1) →
    v ≠ VNone →
    let w1 := {| st := store_slot func v s1;
                 trace := trace w ++ [EvFunc [] ∅] |} in
    read_n func (S n) w = serve_n v (S n) w1 ∧
    trace (snd (read_n func (S n) w)) = (trace w ++ [EvFunc [] ∅])%list ∧
    computed_once func w n ∧
    cached func (snd (read_n func (S n) w)) v.
Proof.
  intros func w v s1 n Hun Hcall Hv w1.
  assert (Hc1 : cached func w1 v).
  { split; [|exact Hv]. unfold w1, store_slot. simpl. apply lookup_insert_eq. }
  unfold computed_once.
  simpl read_n. simpl serve_n.
  rewrite (read_unset_ok func w v s1 Hun Hcall). fold w1.
  destruct (copy_or_same v w1) as [r w2] eqn:Hcs.
  pose proof (copy_or_same_frame v w1 w2 r Hcs) as [Hd Ht].
  assert (Hc2 : cached func w2 v).
  { destruct Hc1 as [Hs _]. split; [|exact Hv]. rewrite Hd. exact Hs. }
  destruct (read_n_cached func n w2 v Hc2) as (Heq & Hc3 & Ht3).
  rewrite Heq in *.
  destruct (serve_n v n w2) as [rs w3]. simpl in *.
  split; [reflexivity|].
  assert (Htr : trace w3 = (trace w ++ [EvFunc [] ∅])%list) by congruence.
  split; [exact Htr|]. split; [|exact Hc3].
  rewrite Htr. apply invocations_snoc.
Qed.

Lemma cached_property_computed_once_witness :
  read_n getter_7 3 w0 =
    serve_n (VInt 7) 3 {| st := store_slot getter_7 (VInt 7) (st w0);
                          trace := trace w0 ++ [EvFunc [] ∅] |} ∧
  trace (snd (read_n getter_7 3 w0)) = (trace w0 ++ [EvFunc [] ∅])%list ∧
  computed_once getter_7 w0 2 ∧
  cached getter_7 (snd (read_n getter_7 3 w0)) (VInt 7).
Proof.
  apply (cached_property_computed_once getter_7 w0 (VInt 7) (st w0) 2).
  - reflexivity.
  - reflexivity.
  - discriminate.
Defined.

(** C1 as stated fails for a computation that returns None: the result is
    stored, but the slot then reads as unset and two reads enter the
    function twice. *)
Lemma cached_property_None_recomputed :
  unset getter_None w0 ∧
  decorators.call getter_None (st w0) = (Ok VNone, st w0) ∧
  invocations (trace (snd (read_n getter_None 2 w0))) = 2%nat ∧
  ¬ computed_once getter_None w0 1.
Proof.
  split; [reflexivity|]. split; [reflexivity|].
  split; [reflexivity|].
  unfold computed_once. vm_compute. discriminate.
Qed.

(** C3. When the computation raises on the first access, the exception
    reaches the caller and the property stores nothing: the store is as the
    computation left it, so a slot the computation did not touch is exactly
    as it was, and the next access enters the computation again.  A
    computation that returns an empty list has its result cached: the next
    access does not enter it. *)
Theorem cached_property_failure_not_cached :
  ∀ (func : decorators.getter) (w : world),
    unset func w →
    (∀ (e : exn) (s1 : store),
        decorators.call func (st w) = (Raise e, s1) →
        self_dict s1 !! decorators.attribute_name func =
          self_dict (st w) !! decorators.attribute_name func →
        let w1 := snd (decorators.cached_property func w) in
        fst (decorators.cached_property func w) = Raise e ∧
        st w1 = s1 ∧
        self_dict (st w1) !! decorators.attribute_name func =
          self_dict (st w) !! decorators.attribute_name func ∧
        invocations (trace w1) = S (invocations (trace w)) ∧
        invocations (trace (snd (decorators.cached_property func w1))) =
          S (S (invocations (trace w)))) ∧
    (∀ (l : loc) (s1 : store),
        decorators.call func (st w) = (Ok (VRef l), s1) →
        heap s1 !! l = Some (OList []) →
        let w1 := snd (decorators.cached_property func w) in
        cached func w1 (VRef l) ∧
        invocations (trace w1) = S (invocations (trace w)) ∧
        invocations (trace (snd (decorators.cached_property func w1))) =
          invocations (trace w1)).
Proof.
  intros func w Hun. split.
  - intros e s1 Hcall Hslot w1. unfold w1.
    rewrite (read_unset_raise func w e s1 Hun Hcall). simpl.
    split; [reflexivity|]. split; [reflexivity|]. split; [exact Hslot|].
    split; [apply invocations_snoc|].
    rewrite read_unset_invokes.
    + simpl. rewrite invocations_snoc. reflexivity.
    + unfold unset in *. simpl. rewrite Hslot. exact Hun.
  - intros l s1 Hcall Hl w1.
    pose proof (read_unset_invokes func w Hun) as Hinv.
    unfold w1. rewrite (read_unset_ok func w (VRef l) s1 Hun Hcall) in *.
    set (w2 := {| st := store_slot func (VRef l) s1;
                  trace := (trace w ++ [EvFunc [] ∅])%list |}) in *.
    assert (Hc2 : cached func w2 (VRef l)).
    { split; [|discriminate]. unfold w2, store_slot. simpl. apply lookup_insert_eq. }
    destruct (copy_or_same (VRef l) w2) as [r w3] eqn:Hcs.
    pose proof (copy_or_same_frame _ _ _ _ Hcs) as [Hd Ht].
    simpl in *.
    assert (Hc3 : cached func w3 (VRef l)).
    { destruct Hc2 as [Hs Hv]. split; [|exact Hv]. rewrite Hd. exact Hs. }
    split; [exact Hc3|]. split; [exact Hinv|].
    destruct (read_cached_frame func w3 (VRef l) Hc3) as [_ Ht3].
    rewrite Ht3. reflexivity.
Qed.

Lemma cached_property_failure_not_cached_witness :
  (fst (decorators.cached_property getter_fail w0) =
     Raise (Exn (OtherException "IOError") "timed out") ∧
   invocations
     (trace (snd (decorators.cached_property getter_fail
                    (snd (decorators.cached_property getter_fail w0))))) = 2%nat) ∧
  (cached getter_empty (snd (decorators.cached_property getter_empty w0)) (VRef 1) ∧
   invocations
     (trace (snd (decorators.cached_property getter_empty
                    (snd (decorators.cached_property getter_empty w0))))) = 1%nat).
Proof.
  split.
  - destruct (cached_property_failure_not_cached getter_fail w0) as [Hfail _];
      [reflexivity|].
    destruct (Hfail (Exn (OtherException "IOError") "timed out") (st w0))
      as (Hr & _ & _ & _ & Hagain); [reflexivity|reflexivity|].
    split; [exact Hr|exact Hagain].
  - destruct (cached_property_failure_not_cached getter_empty w0) as [_ Hempty];
      [reflexivity|].
    destruct (Hempty 1%positive
                {| heap := <[1%positive := OList []]> (heap (st w0));
                   self_dict := self_dict (st w0) |})
      as (Hc & Hone & Hsame); [reflexivity|reflexivity|].
    split; [exact Hc|]. rewrite Hsame. exact Hone.
Defined.

(** C7, amended. When copying the cached value fails, a read returns the
    stored value itself if the failure is a [LastfmError]; a copy failure of
    any other class reaches the caller. *)
Theorem cached_property_copy_failure :
  ∀ (func : decorators.getter) (w : world) (v : value) (e : exn),
    cached func w v →
    fst (copy_copy v w) = Raise e →
    (is_LastfmError e = true → decorators.cached_property func w = (Ok v, w)) ∧
    (is_LastfmError e = false → decorators.cached_property func w = (Raise e, w)).
Proof.
  intros func w v e Hc Hcopy.
  rewrite (read_cached func w v Hc).
  unfold copy_or_same, try_except.
  assert (Hw : copy_copy v w = (Raise e, w)).
  { unfold copy_copy in *. destruct v; try discriminate.
    destruct (heap (st w) !! l) as [[items|e']|]; simpl in Hcopy;
      try discriminate; congruence. }
  rewrite Hw. split; intros ->; reflexivity.
Qed.

Lemma cached_property_copy_failure_witness :
  decorators.cached_property getter_None w_entity = (Ok (VRef 1), w_entity).
Proof.
  destruct (cached_property_copy_failure getter_None w_entity (VRef 1)
              entity_not_copyable) as [Hsame _].
  - split; [reflexivity|discriminate].
  - reflexivity.
  - apply Hsame. reflexivity.
Defined.

(** C7 as stated fails for a value the standard library cannot copy: the
    [TypeError] of the copy is not a [LastfmError] and reaches the caller,
    the stored value is not returned. *)
Lemma cached_property_copy_error_propagates :
  cached getter_None w_generator (VRef 1) ∧
  fst (copy_copy (VRef 1) w_generator) = Raise generator_not_copyable ∧
  decorators.cached_property getter_None w_generator =
    (Raise generator_not_copyable, w_generator) ∧
  fst (decorators.cached_property getter_None w_generator) ≠ Ok (VRef 1).
Proof.
  split; [split; [reflexivity|discriminate]|].
  split; [reflexivity|]. split; [reflexivity|]. discriminate.
Qed.

(** C6, amended. When the cached value is a list, each read returns a new
    list object with the same items: the copy is one level deep.  Assigning
    to an item of the returned list leaves the cached list, and every object
    that existed before the read, as they were, so the next read again
    returns a new list with the original items.  Objects nested in the list
    are shared with the cache. *)
Theorem cached_property_copy_isolated :
  ∀ (func : decorators.getter) (w : world) (l : loc) (items : list value),
    self_dict (st w) !! decorators.attribute_name func = Some (VRef l) →
    heap (st w) !! l = Some (OList items) →
    let l' := fresh (dom (heap (st w))) in
    let w' := snd (decorators.cached_property func w) in
    fst (decorators.cached_property func w) = Ok (VRef l') ∧
    l' ≠ l ∧
    heap (st w) !! l' = None ∧
    heap (st w') !! l' = Some (OList items) ∧
    (∀ l0 : loc, l0 ≠ l' → heap (st w') !! l0 = heap (st w) !! l0) ∧
    ∀ (i : nat) (x : value) (w'' : world),
      list_setitem (VRef l') i x w' = (Ok tt, w'') →
      heap (st w'') !! l' = Some (OList (<[i := x]> items)) ∧
      heap (st w'') !! l = Some (OList items) ∧
      (∀ l0 : loc, l0 ≠ l' → heap (st w'') !! l0 = heap (st w) !! l0) ∧
      let l2 := fresh (dom (heap (st w''))) in
      fst (decorators.cached_property func w'') = Ok (VRef l2) ∧
      l2 ≠ l' ∧
      heap (st (snd (decorators.cached_property func w''))) !! l2 =
        Some (OList items).
Proof.
  intros func w l items Hslot Hl l' w'.
  assert (Hc : cached func w (VRef l)) by (split; [exact Hslot|discriminate]).
  assert (Hfresh : heap (st w) !! l' = None).
  { apply not_elem_of_dom. apply is_fresh. }
  assert (Hne : l' ≠ l) by (intros ->; congruence).
  assert (Hread : decorators.cached_property func w =
                  (Ok (VRef l'),
                   {| st := {| heap := <[l' := OList items]> (heap (st w));
                               self_dict := self_dict (st w) |};
                      trace := trace w |})).
  { rewrite (read_cached func w (VRef l) Hc).
    unfold copy_or_same, try_except, copy_copy. rewrite Hl. reflexivity. }
  unfold w'. rewrite Hread. simpl.
  split; [reflexivity|]. split; [exact Hne|]. split; [exact Hfresh|].
  split; [apply lookup_insert_eq|].
  split; [intros l0 Hl0; apply lookup_insert_ne; congruence|].
  intros i x w'' Hset.
  unfold list_setitem in Hset. simpl in Hset.
  rewrite lookup_insert_eq in Hset.
  destruct (decide (i < length items)%nat) as [Hi|Hi]; [|discriminate].
  inversion Hset as [Hw'']. clear Hset. simpl.
  rewrite insert_insert_eq.
  split; [apply lookup_insert_eq|].
  assert (Hl'' : <[l' := OList (<[i := x]> items)]> (heap (st w)) !! l =
                 Some (OList items)).
  { rewrite lookup_insert_ne by congruence. exact Hl. }
  split; [exact Hl''|].
  split; [intros l0 Hl0; apply lookup_insert_ne; congruence|].
  set (w2 := {| st := {| heap := <[l' := OList (<[i := x]> items)]> (heap (st w));
                         self_dict := self_dict (st w) |};
                trace := trace w |}).
  assert (Hc2 : cached func w2 (VRef l)) by (split; [exact Hslot|discriminate]).
  rewrite (read_cached func w2 (VRef l) Hc2).
  unfold copy_or_same, try_except, copy_copy. simpl.
  rewrite Hl''. simpl.
  split; [reflexivity|]. split.
  - intros Heq.
    pose proof (is_fresh (dom (<[l' := OList (<[i := x]> items)]> (heap (st w)))))
      as Hnot.
    rewrite Heq in Hnot. apply Hnot. apply elem_of_dom.
    rewrite lookup_insert_eq. eauto.
  - apply lookup_insert_eq.
Qed.

Lemma cached_property_copy_isolated_witness :
  let w1 := snd (decorators.cached_property getter_None w_flat) in
  let w2 := snd (list_setitem (VRef 2) 0 (VInt 9) w1) in
  fst (decorators.cached_property getter_None w_flat) = Ok (VRef 2) ∧
  heap (st w2) !! 2%positive = Some (OList [VInt 9; VInt 2]) ∧
  heap (st w2) !! 1%positive = Some (OList [VInt 1; VInt 2]) ∧
  fst (decorators.cached_property getter_None w2) = Ok (VRef 3) ∧
  heap (st (snd (decorators.cached_property getter_None w2))) !! 3%positive =
    Some (OList [VInt 1; VInt 2]).
Proof.
  intros w1 w2.
  destruct (cached_property_copy_isolated getter_None w_flat 1%positive
              [VInt 1; VInt 2]) as (Hr & _ & _ & _ & _ & Hmut).
  - reflexivity.
  - reflexivity.
  - destruct (Hmut 0%nat (VInt 9) w2) as (Hcopy & Horig & _ & Hnext & _ & Hitems).
    + reflexivity.
    + split; [exact Hr|]. split; [exact Hcopy|]. split; [exact Horig|].
      split; [exact Hnext|exact Hitems].
Defined.

(** C6 as stated fails for nested structure: the copy shares the nested
    list with the cache, so assigning into the nested list of a value that
    was read changes what the cache holds and what the next read returns. *)
Lemma cached_property_nested_shared :
  cached getter_None w_nested (VRef 1) ∧
  fst (mutate_nested getter_None w_nested) = Ok tt ∧
  snapshot 2 (heap (st w_nested)) (VRef 1) = SList [SList [SAtom (VInt 1)]] ∧
  snapshot 2 (heap (st (snd (mutate_nested getter_None w_nested)))) (VRef 1) =
    SList [SList [SAtom (VInt 2)]] ∧
  snapshot 2 (heap (st (snd (mutate_nested getter_None w_nested)))) (VRef 1) ≠
    snapshot 2 (heap (st w_nested)) (VRef 1).
Proof.
  split; [split; [reflexivity|discriminate]|].
  split; [reflexivity|]. split; [reflexivity|]. split; [reflexivity|].
  vm_compute. discriminate.
Qed.

(** * [authenticate] *)

(** C4, amended. When the session resolved from the calling object is
    authenticated, the guarded function is entered exactly once and a value
    it returns is returned.  When the session is not authenticated, the
    function is not entered and an [AuthenticationFailedError] naming the
    user (None when unknown) is raised.  When the API client's lookup of the
    authenticated user fails with another error, the function is not entered
    and that error reaches the caller. *)
Theorem authenticate_gate :
  ∀ (func : list value → gmap string value → code value)
    (self : decorators.caller) (args : list value)
    (kwargs : gmap string value) (w : world),
    let r := decorators.authenticate func self args kwargs w in
    (resolve_session self = Authenticated →
       trace (snd r) = (trace w ++ [EvFunc args kwargs])%list ∧
       st (snd r) = snd (func args kwargs (st w)) ∧
       ∀ v : value, fst (func args kwargs (st w)) = Ok v → fst r = Ok v) ∧
    (∀ username : option string,
       resolve_session self = NotAuthenticated username →
       r = (Raise (decorators.permission_denied username), w)) ∧
    (∀ e : exn,
       resolve_session self = LookupFailed e →
       r = (Raise e, w)).
Proof.
  intros func self args kwargs w r.
  assert (Hcall : ∀ w1 : world,
             w1 = snd (invoke (EvFunc args kwargs) (func args kwargs) w) →
             trace w1 = (trace w ++ [EvFunc args kwargs])%list ∧
             st w1 = snd (func args kwargs (st w))).
  { intros w1 ->. unfold invoke.
    destruct (func args kwargs (st w)) as [r1 s1]. simpl. auto. }
  assert (Hval : ∀ v : value,
             fst (func args kwargs (st w)) = Ok v →
             fst (invoke (EvFunc args kwargs) (func args kwargs) w) = Ok v).
  { intros v. unfold invoke.
    destruct (func args kwargs (st w)) as [r1 s1]. simpl. auto. }
  assert (Huser : ∀ u : user.User,
             let r' := (if user.authenticated u
                        then invoke (EvFunc args kwargs) (func args kwargs)
                        else raise (decorators.permission_denied (user.name u))) w in
             (session_of u = Authenticated →
                trace (snd r') = (trace w ++ [EvFunc args kwargs])%list ∧
                st (snd r') = snd (func args kwargs (st w)) ∧
                ∀ v : value, fst (func args kwargs (st w)) = Ok v → fst r' = Ok v) ∧
             (∀ username : option string,
                session_of u = NotAuthenticated username →
                r' = (Raise (decorators.permission_denied username), w)) ∧
             (∀ e : exn, session_of u = LookupFailed e → r' = (Raise e, w))).
  { intros u. unfold session_of.
    destruct (user.authenticated u); simpl.
    - split; [|split; intros; discriminate].
      intros _. destruct (Hcall _ eq_refl) as [Ht Hs]. auto.
    - split; [intros; discriminate|]. split; [|intros; discriminate].
      intros username [= <-]. reflexivity. }
  unfold r, decorators.authenticate, resolve_session.
  destruct (decorators.as_User self) as [u|]; [apply Huser|].
  destruct (decorators.user self) as [u|]; [apply Huser|].
  assert (Hapi :
    let r' :=
      match decorators._api self with
      | Some (decorators.ApiClient a) =>
          match api.get_authenticated_user a with
          | Ok u =>
              try_except (invoke (EvFunc args kwargs) (func args kwargs))
                is_AuthenticationFailedError
                (fun _ => raise (decorators.permission_denied (user.name u)))
          | Raise e =>
              if is_AuthenticationFailedError e
              then raise (decorators.permission_denied None)
              else raise e
          end
      | _ => raise (decorators.permission_denied None)
      end w in
    let s :=
      match decorators._api self with
      | Some (decorators.ApiClient a) =>
          match api.get_authenticated_user a with
          | Ok _ => Authenticated
          | Raise e =>
              if is_AuthenticationFailedError e then NotAuthenticated None
              else LookupFailed e
          end
      | _ => NotAuthenticated None
      end in
    (s = Authenticated →
       trace (snd r') = (trace w ++ [EvFunc args kwargs])%list ∧
       st (snd r') = snd (func args kwargs (st w)) ∧
       ∀ v : value, fst (func args kwargs (st w)) = Ok v → fst r' = Ok v) ∧
    (∀ username : option string,
       s = NotAuthenticated username →
       r' = (Raise (decorators.permission_denied username), w)) ∧
    (∀ e : exn, s = LookupFailed e → r' = (Raise e, w))).
  { destruct (decorators._api self) as [[a|]|]; simpl;
      try (split; [intros; discriminate|];
           split; [intros username [= <-]; reflexivity|intros; discriminate]).
    destruct (api.get_authenticated_user a) as [u|e].
    - split; [|split; intros; discriminate].
      intros _. unfold try_except, invoke, raise.
      destruct (func args kwargs (st w)) as [[v|e] s1]; simpl.
      + split; [reflexivity|]. split; [reflexivity|]. auto.
      + destruct (is_AuthenticationFailedError e); simpl;
          (split; [reflexivity|]; split; [reflexivity|]; intros; discriminate).
    - destruct (is_AuthenticationFailedError e); simpl.
      + split; [intros; discriminate|].
        split; [intros username [= <-]; reflexivity|intros; discriminate].
      + split; [intros; discriminate|].
        split; [intros; discriminate|intros e' [= <-]; reflexivity]. }
  destruct (decorators._subject self) as [[u|]|]; [apply Huser| |]; exact Hapi.
Qed.

Lemma authenticate_gate_witness :
  (trace (snd (decorators.authenticate func_one (caller_of alice) [] ∅ w0)) =
     [EvFunc [] ∅] ∧
   fst (decorators.authenticate func_one (caller_of alice) [] ∅ w0) = Ok (VInt 1)) ∧
  decorators.authenticate func_one (caller_of bob) [] ∅ w0 =
    (Raise (decorators.permission_denied (Some "bob")), w0) ∧
  decorators.authenticate func_one caller_offline [] ∅ w0 =
    (Raise connection_failed, w0).
Proof.
  split; [|split].
  - destruct (authenticate_gate func_one (caller_of alice) [] ∅ w0)
      as [Hyes _].
    destruct (Hyes eq_refl) as (Ht & _ & Hv).
    split; [exact Ht|]. apply Hv. reflexivity.
  - destruct (authenticate_gate func_one (caller_of bob) [] ∅ w0)
      as (_ & Hno & _).
    apply Hno. reflexivity.
  - destruct (authenticate_gate func_one caller_offline [] ∅ w0)
      as (_ & _ & Hfail).
    apply Hfail. reflexivity.
Defined.

(** C4 as stated fails when the API client cannot be reached: no
    authenticated session is resolved and the function is not entered, but
    the error that reaches the caller is the client's, not an
    [AuthenticationFailedError]. *)
Lemma authenticate_lookup_error_propagates :
  resolve_session caller_offline ≠ Authenticated ∧
  decorators.authenticate func_one caller_offline [] ∅ w0 =
    (Raise connection_failed, w0) ∧
  is_AuthenticationFailedError connection_failed = false.
Proof. split; [discriminate|]. split; reflexivity. Qed.

(** * [async_callback] *)


Lemma first_callable_None (args : list value) :
  decorators.first_callable args = None →
  ∀ a : value, a ∈ args → callable a = false.
Proof.
  unfold decorators.first_callable. intros Hhead a Ha.
  destruct (callable a) eqn:Hc; [|reflexivity].
  assert (Hin : a ∈ filter (fun a => callable a = true) args)
    by (apply list_elem_of_filter; auto).
  destruct (filter _ args); [inversion Hin|discriminate].
Qed.



(** The wrapper, read in one piece: the search for a positional callback,
    then the keyword, then the test of the callback. *)
Lemma async_callback_steps
    (func : list value → gmap string value → code value)
    (apply : value → value → code value)
    (eq_object : loc → value → code bool)
    (args : list value) (kwargs : gmap string value) (w : world) :
  decorators.async_callback func apply eq_object args kwargs w =
    match stripped eq_object args (st w) with
    | (Raise e, s1) => (Raise e, searched w s1)
    | (Ok args', s1) =>
        let positional := default VNone (decorators.first_callable args) in
        let callback := default positional (kwargs !! "callback") in
        let kwargs' := delete "callback" kwargs in
        if negb (is_None callback) && callable callback then
          (Ok (VNone, Some (decorators.async_call func apply callback args' kwargs')),
           searched w s1)
        else
          (v ← invoke (EvFunc args' kwargs') (func args' kwargs'); ret (v, None))
            (searched w s1)
    end.
Proof.
  unfold decorators.async_callback, stripped, searched. step_M.
  destruct w as [s t]. simpl.
  destruct (decorators.first_callable args) as [a|]; simpl.
  - unfold decorators.lift. simpl.
    destruct (decorators.list_remove eq_object a args s) as [[args'|e] s1]; simpl;
      [|reflexivity].
    destruct (kwargs !! "callback") as [cb|] eqn:Hkw; simpl.
    + destruct (negb (is_None cb) && callable cb); reflexivity.
    + rewrite (delete_id kwargs "callback" Hkw).
      destruct (negb (is_None a) && callable a); reflexivity.
  - unfold ret at 1. simpl.
    destruct (kwargs !! "callback") as [cb|] eqn:Hkw; simpl.
    + destruct (negb (is_None cb) && callable cb); reflexivity.
    + rewrite (delete_id kwargs "callback" Hkw). reflexivity.
Qed.

Lemma synchronous_invoke
    (func : list value → gmap string value → code value)
    (args : list value) (kwargs : gmap string value) (w : world) :
  synchronous func
    ((v ← invoke (EvFunc args kwargs) (func args kwargs); ret (v, None)) w)
    w args kwargs.
Proof.
  unfold synchronous. step_M. unfold invoke, ret.
  destruct (func args kwargs (st w)) as [[v|e] s1]; simpl; auto.
Qed.




(** * [Group]: identity key, equality and hashing *)

(** C8, amended. Computing the hash key of a Group without a [name]
    keyword raises [InvalidParametersError].  Hashing a Group always passes
    the [name] keyword, so a Group whose name is None is hashed to the hash
    of None. *)
Theorem Group_hash_needs_name_keyword :
  ∀ (H : BuiltinHash),
    (∀ (args : list value) (kwds : gmap string value),
       kwds !! "name" = None →
       group._hash_func args kwds =
         Raise (Exn InvalidParametersError "name has to be provided for hashing")) ∧
    (∀ g : group.Group,
       group.name g = VNone → group.__hash__ g = Ok hash_None).
Proof.
  intros H. split.
  - intros args kwds Hname.
    unfold group._hash_func, dict_getitem. rewrite Hname. reflexivity.
  - intros g Hname.
    unfold group.__hash__, group._hash_func, dict_getitem.
    rewrite lookup_singleton_eq, Hname. reflexivity.
Qed.

Lemma Group_hash_needs_name_keyword_witness :
  @group._hash_func sample_hash [VStr "Jazz"] {[ "title" := VStr "Jazz" ]} =
    Raise (Exn InvalidParametersError "name has to be provided for hashing") ∧
  @group.__hash__ sample_hash nameless = Ok 1234567.
Proof.
  destruct (Group_hash_needs_name_keyword sample_hash) as [Hkey Hnone].
  split.
  - apply Hkey. reflexivity.
  - apply (Hnone nameless). reflexivity.
Defined.

(** C8 as stated fails in its second half: a Group constructed without a
    name has the name None, and hashing it yields a key, whatever the
    interpreter's hash of None is. *)
Lemma Group_hash_nameless_is_a_key :
  group.init (decorators.ApiClient api_offline) VNone = Ok nameless ∧
  group.name nameless = VNone ∧
  ∀ H : BuiltinHash,
    @group.__hash__ H nameless = Ok (@hash_None H) ∧
    ¬ ∃ e : exn, @group.__hash__ H nameless = Raise e.
Proof.
  split; [reflexivity|]. split; [reflexivity|].
  intros H.
  assert (Hh : @group.__hash__ H nameless = Ok (@hash_None H)) by reflexivity.
  split; [exact Hh|]. intros [e He]. rewrite Hh in He. discriminate.
Qed.

(** C9. For two Groups whose names are strings, [==] holds exactly when
    the names are equal, both hash to the hash of their name, and equal
    Groups have equal hashes. *)
Theorem Group_eq_hash_consistent :
  ∀ (H : BuiltinHash) (g1 g2 : group.Group) (s1 s2 : string),
    group.name g1 = VStr s1 →
    group.name g2 = VStr s2 →
    group.__eq__ g1 g2 = py_eq (group.name g1) (group.name g2) ∧
    (group.__eq__ g1 g2 = true ↔ s1 = s2) ∧
    group.__hash__ g1 = Ok (hash_str s1) ∧
    group.__hash__ g2 = Ok (hash_str s2) ∧
    (group.__eq__ g1 g2 = true → group.__hash__ g1 = group.__hash__ g2).
Proof.
  intros H g1 g2 s1 s2 H1 H2.
  assert (Heq : group.__eq__ g1 g2 = true ↔ s1 = s2).
  { unfold group.__eq__, py_eq. rewrite H1, H2, bool_decide_eq_true.
    split; [intros [= ->]; reflexivity|intros ->; reflexivity]. }
  assert (Hh : ∀ (g : group.Group) (s : string),
             group.name g = VStr s → group.__hash__ g = Ok (hash_str s)).
  { intros g s Hg. unfold group.__hash__, group._hash_func, dict_getitem.
    rewrite lookup_singleton_eq, Hg. reflexivity. }
  split; [reflexivity|]. split; [exact Heq|].
  split; [apply Hh; exact H1|]. split; [apply Hh; exact H2|].
  intros Hsame. apply Heq in Hsame. subst s2.
  rewrite (Hh g1 s1 H1), (Hh g2 s1 H2). reflexivity.
Qed.

Lemma Group_eq_hash_consistent_witness :
  group.__eq__ jazz jazz' = true ∧
  @group.__hash__ sample_hash jazz = @group.__hash__ sample_hash jazz'.
Proof.
  destruct (Group_eq_hash_consistent sample_hash jazz jazz' "Jazz" "Jazz")
    as (_ & Heq & _ & _ & Hhash); [reflexivity|reflexivity|].
  assert (Hsame : group.__eq__ jazz jazz' = true) by (apply Heq; reflexivity).
  split; [exact Hsame|]. apply Hhash. exact Hsame.
Defined.

(** * Paged sequences: [depaginate] and [Group.members] *)

Section paging_facts.
Variable fetcher : gmap string value → code (Z * list value).
Variable ev : gmap string value → event.
Variable total : Z.
Variable pages : Z → list value.

(** The source of pages is steady: every request is answered with the same
    total and with the elements of the page it asks for. *)
Hypothesis steady :
  ∀ (params : gmap string value) (s : store),
    fetcher params s = (Ok (total, pages (page_of params)), s).

Let request := fun params : gmap string value => invoke (ev params) (fetcher params).

Lemma request_page (p : Z) (params : gmap string value) (w : world) :
  request (<["page" := VInt p]> params) w =
    (Ok (total, pages p),
     {| st := st w; trace := trace w ++ [ev (<["page" := VInt p]> params)] |}).
Proof.
  unfold request, invoke. rewrite steady.
  unfold page_of. rewrite lookup_insert_eq. reflexivity.
Qed.

(** While the current page has elements left, [next] yields the first of
    them and requests nothing. *)
Lemma gen_next_buffered (params0 : gmap string value) (first_page : Z)
    (e : value) (rest : list value) (ps : list Z)
    (params : gmap string value) (w : world) :
  gen_next request params0 first_page (Running (e :: rest) ps params) w =
    (Ok (Some (e, Running rest ps params)), w).
Proof. reflexivity. Qed.

(** Taking more elements than are left drains the generator: the rest of
    the current page, then every page still to visit, in order, one request
    for each. *)
Lemma gen_take_running (params0 : gmap string value) (first_page : Z) :
  ∀ (ps : list Z) (buf : list value) (params : gmap string value)
    (w : world) (n : nat),
    (length buf + length (concat (pages <$> ps)) < n)%nat →
    gen_take request params0 first_page n (Running buf ps params) w =
      (Ok (buf ++ concat (pages <$> ps), Finished),
       {| st := st w; trace := trace w ++ page_events ev ps params |}).
Proof.
  assert (Hcons : ∀ (p : Z) (ps : list Z),
             length (concat (pages <$> p :: ps)) =
               (length (pages p) + length (concat (pages <$> ps)))%nat).
  { intros p ps. rewrite fmap_cons.
    change (concat (pages p :: (pages <$> ps)))
      with (pages p ++ concat (pages <$> ps)).
    apply length_app. }
  induction ps as [|p ps IH].
  - induction buf as [|e rest IHb]; intros params w n Hn.
    + destruct n as [|n]; [cbn [length] in Hn; lia|].
      simpl. unfold mbind, M_bind, bind, ret. simpl.
      rewrite app_nil_r. destruct w. reflexivity.
    + destruct n as [|n]; [cbn [length] in Hn; lia|].
      simpl gen_take. step_M. simpl gen_next.
      unfold ret at 1.
      rewrite (IHb params w n) by (cbn [length] in Hn; lia).
      reflexivity.
  - induction buf as [|e rest IHb]; intros params w n Hn.
    + destruct n as [|n]; [cbn [length] in Hn; lia|].
      simpl gen_take. step_M. simpl gen_next.
      step_M.
      rewrite request_page.
      rewrite Hcons in Hn. cbn [length] in Hn.
      rewrite fmap_cons.
      change (concat (pages p :: (pages <$> ps)))
        with (pages p ++ concat (pages <$> ps)).
      destruct (pages p) as [|e rest] eqn:Hp.
      * specialize (IH [] (<["page" := VInt p]> params)
                      {| st := st w;
                         trace := trace w ++ [ev (<["page" := VInt p]> params)] |}
                      (S n)).
        simpl gen_take in IH. unfold mbind, M_bind, bind in IH.
        simpl gen_next in IH.
        rewrite IH by (cbn [length] in *; lia).
        simpl. rewrite <- app_assoc. reflexivity.
      * unfold ret at 1.
        rewrite (IH rest) by (cbn [length] in *; lia).
        simpl. rewrite <- app_assoc. reflexivity.
    + destruct n as [|n]; [cbn [length] in Hn; lia|].
      simpl gen_take. step_M. simpl gen_next.
      unfold ret at 1.
      rewrite (IHb params w n) by (cbn [length] in Hn; lia).
      reflexivity.
Qed.

(** From the start: the first request, then the page loop from
    [first_page]. *)
Lemma gen_take_start (params0 : gmap string value) (first_page : Z)
    (w : world) (n : nat) :
  let rest := xrange first_page (total + 1) in
  (length (pages (page_of params0)) + length (concat (pages <$> rest)) < n)%nat →
  gen_take request params0 first_page n Start w =
    (Ok (pages (page_of params0) ++ concat (pages <$> rest), Finished),
     {| st := st w;
        trace := trace w ++ ev params0 :: page_events ev rest params0 |}).
Proof.
  intros rest Hn.
  destruct n as [|n]; [lia|].
  pose proof (gen_take_running params0 first_page rest) as Hrun.
  simpl gen_take. step_M. simpl gen_next.
  step_M.
  unfold request at 1. unfold invoke. rewrite steady. fold rest.
  destruct (pages (page_of params0)) as [|e es] eqn:Hp.
  - specialize (Hrun [] params0
                  {| st := st w; trace := trace w ++ [ev params0] |} (S n)).
    simpl gen_take in Hrun. unfold mbind, M_bind, bind in Hrun.
    simpl gen_next in Hrun. fold request.
    rewrite Hrun by (cbn [length] in *; lia).
    simpl. rewrite <- app_assoc. reflexivity.
  - unfold ret at 1. fold request.
    rewrite (Hrun es) by (cbn [length] in *; lia).
    simpl. rewrite <- app_assoc. reflexivity.
Qed.
End paging_facts.

(** X7. [depaginate] over a steady source, called without a [page]
    argument: the sequence is the first page followed by the pages 2 to
    [total], each requested once, in order. *)
Lemma depaginate_enumerates_pages
    (func : list value → gmap string value → code (Z * list value))
    (args : list value) (kwargs : gmap string value)
    (total : Z) (pages : Z → list value) (w : world) (n : nat) :
  (∀ (kw : gmap string value) (s : store),
      func args kw s = (Ok (total, pages (page_of kw)), s)) →
  kwargs !! "page" = None →
  (length (pages 1%Z) + length (concat (pages <$> xrange 2 (total + 1)%Z)) < n)%nat →
  decorators.depaginate_take func args kwargs n Start w =
    (Ok (pages 1 ++ concat (pages <$> xrange 2 (total + 1)), Finished),
     {| st := st w;
        trace := trace w ++ EvFunc args kwargs
                   :: page_events (EvFunc args) (xrange 2 (total + 1)) kwargs |}).
Proof.
  intros Hsteady Hpage Hn.
  assert (Hone : page_of kwargs = 1) by (unfold page_of; rewrite Hpage; reflexivity).
  unfold decorators.depaginate_take, decorators.call_func.
  pose proof (gen_take_start (func args) (EvFunc args) total pages Hsteady
                kwargs 2 w n) as Hstart.
  simpl in Hstart. rewrite Hone in Hstart. apply Hstart. exact Hn.
Qed.

(** [Group.members] over a steady source: the sequence is the first page
    followed by the pages 1 to [total], so the first page comes twice. *)
Lemma Group_members_enumeration
    (self : group.Group) (params : gmap string value)
    (total : Z) (pages : Z → list value) (w : world) (n : nat) :
  (∀ (p : gmap string value) (s : store),
      api._fetch_data (group._api self) p s = (Ok (total, pages (page_of p)), s)) →
  params !! "page" = None →
  (length (pages 1%Z) + length (concat (pages <$> xrange 1 (total + 1)%Z)) < n)%nat →
  group.members_take self params n Start w =
    (Ok (pages 1 ++ concat (pages <$> xrange 1 (total + 1)), Finished),
     {| st := st w;
        trace := trace w ++ EvFetch params
                   :: page_events EvFetch (xrange 1 (total + 1)) params |}).
Proof.
  intros Hsteady Hpage Hn.
  assert (Hone : page_of params = 1) by (unfold page_of; rewrite Hpage; reflexivity).
  unfold group.members_take, group.fetch_members.
  pose proof (gen_take_start (api._fetch_data (group._api self)) EvFetch total
                pages Hsteady params 1 w n) as Hstart.
  simpl in Hstart. rewrite Hone in Hstart. apply Hstart. exact Hn.
Qed.

(** The sequence [depaginate] makes of the two pages [alice, bob] and
    [carol]: each member once, the second page requested only when the
    first is used up. *)
Lemma depaginate_two_pages :
  fst (decorators.depaginate_take search_two_pages [] ∅ 10 Start w0) =
    Ok ([VStr "alice"; VStr "bob"; VStr "carol"], Finished) ∧
  trace (snd (decorators.depaginate_take search_two_pages [] ∅ 2 Start w0)) =
    [EvFunc [] ∅] ∧
  trace (snd (decorators.depaginate_take search_two_pages [] ∅ 3 Start w0)) =
    [EvFunc [] ∅; EvFunc [] {[ "page" := VInt 2 ]}].
Proof. split; [|split]; reflexivity. Qed.

(** C2, at a group of three members on two pages ([alice, bob] and
    [carol]): [Group.members] requests the first page, then the pages 1 and
    2, and enumerates the members of the first page twice. *)
Theorem Group_members_repeats_first_page :
  group.members_params jazz_club w0 = (Ok jazz_club_params, w0) ∧
  fst (group.members_take jazz_club jazz_club_params 10 Start w0) =
    Ok ([VStr "alice"; VStr "bob"; VStr "alice"; VStr "bob"; VStr "carol"],
        Finished) ∧
  trace (snd (group.members_take jazz_club jazz_club_params 10 Start w0)) =
    [EvFetch jazz_club_params;
     EvFetch (<["page" := VInt 1]> jazz_club_params);
     EvFetch (<["page" := VInt 2]> jazz_club_params)] ∧
  fst (group.members_take jazz_club jazz_club_params 10 Start w0) ≠
    Ok ([VStr "alice"; VStr "bob"; VStr "carol"], Finished).
Proof. split; [|split; [|split]]; try reflexivity. discriminate. Qed.

(** * Further properties of [top_property] *)

(** X1. Whatever the attribute holds, a value returned by the property is
    None or truthy: a falsy first item is never handed out. *)
Theorem top_property_None_or_truthy :
  ∀ (props : string → option (M value)) (list_property_name : string)
    (w w' : world) (v : value),
    decorators.top_property props list_property_name w = (Ok v, w') →
    v = VNone ∨ truthy (heap (st w')) v = true.
Proof.
  intros props lname w w' v.
  unfold decorators.top_property. step_M.
  destruct (decorators.getattr props lname w) as [[top_list|e] w1]; [|discriminate].
  unfold py_len, py_first, py_bool, ret.
  destruct top_list as [|n|s|f|e1|l]; try discriminate.
  - destruct s as [|c s]; simpl.
    + intros [= <- <-]. left. reflexivity.
    + intros [= <- <-]. right. reflexivity.
  - destruct (heap (st w1) !! l) as [[items|e]|] eqn:Hl; try discriminate.
    destruct items as [|x rest].
    + intros [= <- <-]. left. reflexivity.
    + replace (Z.of_nat (length (x :: rest)) =? 0) with false
        by (symmetry; apply Z.eqb_neq; simpl length; lia).
      simpl. rewrite Hl.
      destruct (truthy (heap (st w1)) x) eqn:Hx; intros [= <- <-]; auto.
Qed.

Lemma top_property_None_or_truthy_witness :
  VInt 1 = VNone ∨ truthy (heap (st w_flat)) (VInt 1) = true.
Proof.
  apply (top_property_None_or_truthy (fun _ => None) "_top_fans" w_flat w_flat).
  reflexivity.
Defined.

(** * Further properties of [cached_property] *)

(** X3. A computation that always returns None is never cached: starting
    from an unset slot, each of [n] reads enters it, and each read returns
    None. *)
Theorem cached_property_None_every_read :
  ∀ (func : decorators.getter) (n : nat) (w : world),
    unset func w →
    (∀ s : store, fst (decorators.call func s) = Ok VNone) →
    invocations (trace (snd (read_n func n w))) = (invocations (trace w) + n)%nat ∧
    fst (read_n func n w) = replicate n (Ok VNone).
Proof.
  intros func n. induction n as [|n IH]; intros w Hun Hnone.
  - simpl. split; [lia|reflexivity].
  - simpl read_n.
    destruct (decorators.call func (st w)) as [r s1] eqn:Hcall.
    pose proof (Hnone (st w)) as Hr. rewrite Hcall in Hr. simpl in Hr. subst r.
    rewrite (read_unset_ok func w VNone s1 Hun Hcall).
    unfold copy_or_same, try_except, copy_copy.
    set (w1 := {| st := store_slot func VNone s1;
                  trace := trace w ++ [EvFunc [] ∅] |}).
    assert (Hun1 : unset func w1).
    { unfold unset, w1, store_slot. simpl. rewrite lookup_insert_eq. reflexivity. }
    destruct (IH w1 Hun1 Hnone) as [Hinv Hres].
    destruct (read_n func n w1) as [rs w2]. simpl in *.
    split.
    + rewrite Hinv. unfold w1. simpl. rewrite invocations_snoc. lia.
    + rewrite Hres. reflexivity.
Qed.

Lemma cached_property_None_every_read_witness :
  invocations (trace (snd (read_n getter_None 5 w0))) = 5%nat ∧
  fst (read_n getter_None 5 w0) = replicate 5 (Ok VNone).
Proof.
  apply (cached_property_None_every_read getter_None 5 w0).
  - reflexivity.
  - intros s. reflexivity.
Defined.




(** X5. A slot that is already filled, by the constructor for instance,
    is never computed: in any number of reads the function is not entered,
    the slot keeps its value and the answers are those the stored value
    alone gives. *)
Theorem cached_property_filled_never_computed :
  ∀ (func : decorators.getter) (n : nat) (w : world) (v : value),
    cached func w v →
    invocations (trace (snd (read_n func n w))) = invocations (trace w) ∧
    cached func (snd (read_n func n w)) v ∧
    fst (read_n func n w) = fst (serve_n v n w).
Proof.
  intros func n w v Hc.
  destruct (read_n_cached func n w v Hc) as (Heq & Hc' & Ht).
  split; [rewrite Ht; reflexivity|]. split; [exact Hc'|].
  rewrite Heq. reflexivity.
Qed.

Lemma cached_property_filled_never_computed_witness :
  invocations (trace (snd (read_n getter_None 4 w_flat))) = invocations (trace w_flat) ∧
  cached getter_None (snd (read_n getter_None 4 w_flat)) (VRef 1) ∧
  fst (read_n getter_None 4 w_flat) = fst (serve_n (VRef 1) 4 w_flat).
Proof.
  apply (cached_property_filled_never_computed getter_None 4 w_flat (VRef 1)).
  split; [reflexivity|discriminate].
Defined.

(** * Further properties of [authenticate] *)

(** X6. Failures of the guarded function of an authenticated caller.  When
    the session came from the API client, an [AuthenticationFailedError]
    raised by the function is replaced by the gate's own error naming the
    API user; every other exception, and every exception on the other
    paths, reaches the caller unchanged. *)
Theorem authenticate_function_failure :
  ∀ (func : list value → gmap string value → code value)
    (self : decorators.caller) (args : list value)
    (kwargs : gmap string value) (w : world) (e : exn),
    resolve_session self = Authenticated →
    fst (func args kwargs (st w)) = Raise e →
    fst (decorators.authenticate func self args kwargs w) =
      Raise match api_user self with
            | Some u =>
                if is_AuthenticationFailedError e
                then decorators.permission_denied (user.name u)
                else e
            | None => e
            end.
Proof.
  intros func self args kwargs w e.
  assert (Hcall : fst (func args kwargs (st w)) = Raise e →
                  fst (invoke (EvFunc args kwargs) (func args kwargs) w) = Raise e).
  { unfold invoke. destruct (func args kwargs (st w)) as [r s1]. simpl. auto. }
  assert (Huser : ∀ u : user.User,
             session_of u = Authenticated →
             fst (func args kwargs (st w)) = Raise e →
             fst ((if user.authenticated u
                   then invoke (EvFunc args kwargs) (func args kwargs)
                   else raise (decorators.permission_denied (user.name u))) w) =
               Raise e).
  { intros u. unfold session_of.
    destruct (user.authenticated u); [intros _; exact Hcall|discriminate]. }
  unfold decorators.authenticate, resolve_session, api_user.
  destruct (decorators.as_User self) as [u|]; [apply Huser|].
  destruct (decorators.user self) as [u|]; [apply Huser|].
  assert (Hapi :
    match decorators._api self with
    | Some (decorators.ApiClient a) =>
        match api.get_authenticated_user a with
        | Ok _ => Authenticated
        | Raise e0 =>
            if is_AuthenticationFailedError e0 then NotAuthenticated None
            else LookupFailed e0
        end
    | _ => NotAuthenticated None
    end = Authenticated →
    fst (func args kwargs (st w)) = Raise e →
    fst (match decorators._api self with
         | Some (decorators.ApiClient a) =>
             match api.get_authenticated_user a with
             | Ok u =>
                 try_except (invoke (EvFunc args kwargs) (func args kwargs))
                   is_AuthenticationFailedError
                   (fun _ => raise (decorators.permission_denied (user.name u)))
             | Raise e0 =>
                 if is_AuthenticationFailedError e0
                 then raise (decorators.permission_denied None)
                 else raise e0
             end
         | _ => raise (decorators.permission_denied None)
         end w) =
    Raise match
            match decorators._api self with
            | Some (decorators.ApiClient a) =>
                match api.get_authenticated_user a with
                | Ok u => Some u
                | Raise _ => None
                end
            | _ => None
            end
          with
          | Some u =>
              if is_AuthenticationFailedError e
              then decorators.permission_denied (user.name u)
              else e
          | None => e
          end).
  { destruct (decorators._api self) as [[a|]|]; try discriminate.
    destruct (api.get_authenticated_user a) as [u|e0].
    - intros _ Hraise. unfold try_except, invoke, raise.
      destruct (func args kwargs (st w)) as [[v|e'] s1]; simpl in *;
        [discriminate|].
      inversion Hraise. subst e'.
      destruct (is_AuthenticationFailedError e); reflexivity.
    - destruct (is_AuthenticationFailedError e0); discriminate. }
  destruct (decorators._subject self) as [[u|]|]; [apply Huser| |]; exact Hapi.
Qed.

Lemma authenticate_function_failure_witness :
  fst (decorators.authenticate func_denied caller_via_api [] ∅ w0) =
    Raise (decorators.permission_denied (Some "alice")) ∧
  fst (decorators.authenticate func_denied (caller_of alice) [] ∅ w0) =
    Raise (Exn AuthenticationFailedError "session expired").
Proof.
  split.
  - apply (authenticate_function_failure func_denied caller_via_api [] ∅ w0
             (Exn AuthenticationFailedError "session expired")); reflexivity.
  - apply (authenticate_function_failure func_denied (caller_of alice) [] ∅ w0
             (Exn AuthenticationFailedError "session expired")); reflexivity.
Defined.

(** * Further properties of the paged sequences *)

Lemma depaginate_enumerates_pages_witness :
  decorators.depaginate_take search_two_pages [] ∅ 4 Start w0 =
    (Ok ((if 1 =? 2 then [VStr "carol"] else [VStr "alice"; VStr "bob"]) ++
         concat ((fun p : Z => if p =? 2 then [VStr "carol"]
                               else [VStr "alice"; VStr "bob"]) <$> xrange 2 (2 + 1)),
         Finished),
     {| st := st w0;
        trace := trace w0 ++ EvFunc [] ∅
                   :: page_events (EvFunc []) (xrange 2 (2 + 1)) ∅ |}).
Proof.
  apply (depaginate_enumerates_pages search_two_pages [] ∅ 2
           (fun p : Z => if p =? 2 then [VStr "carol"]
                         else [VStr "alice"; VStr "bob"]) w0 4).
  - intros kw s. reflexivity.
  - reflexivity.
  - vm_compute. lia.
Defined.

Section generator_facts.
Variable request : gmap string value → M (Z * list value).
Variable params0 : gmap string value.
Variable first_page : Z.

(** Elements of the current page are handed out without a request. *)
Lemma gen_take_buffer (n : nat) :
  ∀ (buf : list value) (ps : list Z) (params : gmap string value) (w : world),
    (n ≤ length buf)%nat →
    gen_take request params0 first_page n (Running buf ps params) w =
      (Ok (take n buf, Running (drop n buf) ps params), w).
Proof.
  induction n as [|n IH]; intros buf ps params w Hn.
  - reflexivity.
  - destruct buf as [|e rest]; [simpl in Hn; lia|].
    simpl gen_take. step_M. simpl gen_next. unfold ret at 1.
    rewrite IH by (simpl in Hn; lia). reflexivity.
Qed.

(** The rest of the current page comes first, then what the page loop
    gives. *)
Lemma gen_take_buffer_then (m : nat) :
  ∀ (buf : list value) (ps : list Z) (params : gmap string value) (w : world),
    gen_take request params0 first_page (length buf + m) (Running buf ps params) w =
      match gen_take request params0 first_page m (Running [] ps params) w with
      | (Ok (es, g), w') => (Ok (buf ++ es, g), w')
      | (Raise e, w') => (Raise e, w')
      end.
Proof.
  induction buf as [|x buf IH]; intros ps params w.
  - simpl length. simpl Nat.add.
    destruct (gen_take request params0 first_page m (Running [] ps params) w)
      as [[[es g]|e] w']; reflexivity.
  - simpl length. simpl Nat.add.
    simpl gen_take. step_M. simpl gen_next. unfold ret at 1.
    rewrite IH.
    destruct (gen_take request params0 first_page m (Running [] ps params) w)
      as [[[es g]|e] w']; reflexivity.
Qed.

Lemma gen_take_Finished (m : nat) (w : world) :
  gen_take request params0 first_page m Finished w = (Ok ([], Finished), w).
Proof. destruct m; reflexivity. Qed.

End generator_facts.

(** X8. The first page is enough for its own elements: when the first
    request answers [page1], the first [n] elements, for [n] up to the
    length of [page1], are had with that one request, whatever the later
    pages would answer. *)
Theorem depaginate_first_page_lazy :
  ∀ (func : list value → gmap string value → code (Z * list value))
    (args : list value) (kwargs : gmap string value)
    (total : Z) (page1 : list value) (s1 : store) (w : world) (n : nat),
    func args kwargs (st w) = (Ok (total, page1), s1) →
    (0 < n ≤ length page1)%nat →
    decorators.depaginate_take func args kwargs n Start w =
      (Ok (take n page1,
           Running (drop n page1) (xrange 2 (total + 1)) kwargs),
       {| st := s1; trace := trace w ++ [EvFunc args kwargs] |}).
Proof.
  intros func args kwargs total page1 s1 w n Hfirst [Hpos Hn].
  destruct n as [|n]; [lia|].
  destruct page1 as [|e rest]; [simpl in Hn; lia|].
  unfold decorators.depaginate_take.
  simpl gen_take. step_M. simpl gen_next. step_M.
  unfold decorators.call_func at 1. unfold invoke. rewrite Hfirst.
  unfold ret at 1.
  rewrite gen_take_buffer by (simpl in Hn; lia). reflexivity.
Qed.

Lemma depaginate_first_page_lazy_witness :
  decorators.depaginate_take search_two_pages [] ∅ 2 Start w0 =
    (Ok (take 2 [VStr "alice"; VStr "bob"],
         Running (drop 2 [VStr "alice"; VStr "bob"]) (xrange 2 (2 + 1)) ∅),
     {| st := st w0; trace := trace w0 ++ [EvFunc [] ∅] |}).
Proof.
  apply (depaginate_first_page_lazy search_two_pages [] ∅ 2
           [VStr "alice"; VStr "bob"] (st w0) w0 2).
  - reflexivity.
  - simpl. lia.
Defined.

(** X10. A [page] argument given by the caller selects the first request
    only: over a steady source the sequence is that page followed by the
    pages 2 to [total]. *)
Theorem depaginate_explicit_page :
  ∀ (func : list value → gmap string value → code (Z * list value))
    (args : list value) (kwargs : gmap string value)
    (total p : Z) (pages : Z → list value) (w : world) (n : nat),
    (∀ (kw : gmap string value) (s : store),
        func args kw s = (Ok (total, pages (page_of kw)), s)) →
    kwargs !! "page" = Some (VInt p) →
    (length (pages p) + length (concat (pages <$> xrange 2 (total + 1))) < n)%nat →
    decorators.depaginate_take func args kwargs n Start w =
      (Ok (pages p ++ concat (pages <$> xrange 2 (total + 1)), Finished),
       {| st := st w;
          trace := trace w ++ EvFunc args kwargs
                     :: page_events (EvFunc args) (xrange 2 (total + 1)) kwargs |}).
Proof.
  intros func args kwargs total p pages w n Hsteady Hpage Hn.
  assert (Hp : page_of kwargs = p) by (unfold page_of; rewrite Hpage; reflexivity).
  unfold decorators.depaginate_take, decorators.call_func.
  pose proof (gen_take_start (func args) (EvFunc args) total pages Hsteady
                kwargs 2 w n) as Hstart.
  simpl in Hstart. rewrite Hp in Hstart. apply Hstart. exact Hn.
Qed.

Lemma depaginate_explicit_page_witness :
  fst (decorators.depaginate_take search_two_pages [] {[ "page" := VInt 2 ]} 4 Start w0) =
    Ok ([VStr "carol"; VStr "carol"], Finished).
Proof.
  rewrite (depaginate_explicit_page search_two_pages [] {[ "page" := VInt 2 ]} 2 2
             (fun p : Z => if p =? 2 then [VStr "carol"]
                           else [VStr "alice"; VStr "bob"]) w0 4).
  - reflexivity.
  - intros kw s. reflexivity.
  - reflexivity.
  - vm_compute. lia.
Defined.

Lemma xrange_cons (a b : Z) :
  a < b → xrange a b = a :: xrange (a + 1) b.
Proof.
  intros Hab. unfold xrange.
  replace (Z.to_nat (b - a)) with (S (Z.to_nat (b - (a + 1)))) by lia.
  simpl seq. rewrite fmap_cons. f_equal; [lia|].
  rewrite <- fmap_S_seq, <- list_fmap_compose.
  apply list_fmap_ext. intros _ i _. simpl. lia.
Qed.

(** X11. A failed request reaches the consumer where the page is needed.
    When the first request fails, the first [next] raises and nothing
    further is asked.  When the first request answers and the request for
    page 2 fails, the elements of the first page are still had, and the
    [next] after them raises, two requests having been made. *)
Theorem depaginate_request_fails :
  ∀ (func : list value → gmap string value → code (Z * list value))
    (args : list value) (kwargs : gmap string value)
    (e : exn) (w : world) (n : nat),
    (∀ s1 : store,
        func args kwargs (st w) = (Raise e, s1) →
        decorators.depaginate_take func args kwargs (S n) Start w =
          (Raise e, {| st := s1; trace := trace w ++ [EvFunc args kwargs] |})) ∧
    (∀ (total : Z) (page1 : list value) (s1 s2 : store),
        func args kwargs (st w) = (Ok (total, page1), s1) →
        2 ≤ total →
        func args (<["page" := VInt 2]> kwargs) s1 = (Raise e, s2) →
        decorators.depaginate_take func args kwargs (length page1) Start w =
          (Ok (page1, match page1 with
                      | [] => Start
                      | _ => Running [] (xrange 2 (total + 1)) kwargs
                      end),
           match page1 with
           | [] => w
           | _ => {| st := s1; trace := trace w ++ [EvFunc args kwargs] |}
           end) ∧
        decorators.depaginate_take func args kwargs (length page1 + S n) Start w =
          (Raise e,
           {| st := s2;
              trace := trace w ++ [EvFunc args kwargs;
                                   EvFunc args (<["page" := VInt 2]> kwargs)] |})).
Proof.
  intros func args kwargs e w n. split.
  - intros s1 Hfail.
    unfold decorators.depaginate_take.
    simpl gen_take. step_M. simpl gen_next. step_M.
    unfold decorators.call_func, invoke. rewrite Hfail. reflexivity.
  - intros total page1 s1 s2 Hfirst Htotal Hsecond.
    assert (Hpages : xrange 2 (total + 1) = 2 :: xrange 3 (total + 1))
      by (apply xrange_cons; lia).
    assert (Hnext :
      next_page (decorators.call_func func args) (xrange 2 (total + 1)) kwargs
        {| st := s1; trace := trace w ++ [EvFunc args kwargs] |} =
      (Raise e,
       {| st := s2;
          trace := trace w ++ [EvFunc args kwargs;
                               EvFunc args (<["page" := VInt 2]> kwargs)] |})).
    { rewrite Hpages. simpl next_page. step_M.
      unfold decorators.call_func, invoke. simpl. rewrite Hsecond.
      rewrite <- app_assoc. reflexivity. }
    destruct page1 as [|x rest].
    + split; [reflexivity|].
      unfold decorators.depaginate_take.
      simpl gen_take. step_M. simpl gen_next. step_M.
      unfold decorators.call_func at 1. unfold invoke at 1. rewrite Hfirst.
      rewrite Hnext. reflexivity.
    + unfold decorators.depaginate_take. split.
      * simpl length. simpl gen_take. step_M. simpl gen_next. step_M.
        unfold decorators.call_func at 1. unfold invoke at 1. rewrite Hfirst.
        unfold ret at 1.
        rewrite gen_take_buffer by lia.
        rewrite firstn_all, drop_all. reflexivity.
      * simpl length. simpl Nat.add. simpl gen_take. step_M. simpl gen_next. step_M.
        unfold decorators.call_func at 1. unfold invoke at 1. rewrite Hfirst.
        unfold ret at 1.
        rewrite gen_take_buffer_then.
        simpl gen_take. step_M. simpl gen_next.
        rewrite Hnext. reflexivity.
Qed.

Lemma depaginate_request_fails_witness :
  decorators.depaginate_take (fun _ _ s => (Raise connection_failed, s)) [] ∅ 3 Start w0 =
    (Raise connection_failed, {| st := st w0; trace := trace w0 ++ [EvFunc [] ∅] |}) ∧
  decorators.depaginate_take search_page_2_down [] ∅ (2 + 1) Start w0 =
    (Raise connection_failed,
     {| st := st w0;
        trace := trace w0 ++ [EvFunc [] ∅; EvFunc [] (<["page" := VInt 2]> ∅)] |}).
Proof.
  split.
  - destruct (depaginate_request_fails (fun _ _ s => (Raise connection_failed, s))
                [] ∅ connection_failed w0 2) as [Hfirst _].
    apply (Hfirst (st w0)). reflexivity.
  - destruct (depaginate_request_fails search_page_2_down [] ∅ connection_failed w0 0)
      as [_ Hsecond].
    destruct (Hsecond 2 [VStr "alice"; VStr "bob"] (st w0) (st w0)) as [_ Hraise];
      [reflexivity|lia|reflexivity|].
    exact Hraise.
Defined.

(** * Further properties of [Group] *)

(** X12. The request dictionary of a Group.  A Group whose name is falsy
    (None, the empty string) has none: [InvalidParametersError] is raised
    and, for [members], before any request.  Otherwise the dictionary has
    every entry of [extra_params], and [group] is the name unless
    [extra_params] gives [group] itself. *)
Theorem Group_default_params :
  ∀ (self : group.Group) (extra_params : gmap string value) (w : world),
    (truthy (heap (st w)) (group.name self) = false →
       group._default_params self extra_params w =
         (Raise (Exn InvalidParametersError "group has to be provided."), w) ∧
       group.members_params self w =
         (Raise (Exn InvalidParametersError "group has to be provided."), w)) ∧
    (truthy (heap (st w)) (group.name self) = true →
       ∃ params : gmap string value,
         group._default_params self extra_params w = (Ok params, w) ∧
         params !! "group" =
           Some (default (group.name self) (extra_params !! "group")) ∧
         ∀ k : string, k ≠ "group" → params !! k = extra_params !! k).
Proof.
  intros self extra w. split.
  - intros Hfalsy.
    unfold group.members_params, group._default_params. step_M.
    unfold py_bool. rewrite Hfalsy. split; reflexivity.
  - intros Htruthy.
    exists (extra ∪ {["group" := group.name self]}).
    unfold group._default_params. step_M.
    unfold py_bool. rewrite Htruthy. simpl.
    split; [reflexivity|]. split.
    + rewrite lookup_union.
      destruct (extra !! "group") as [v|]; simpl.
      * rewrite lookup_singleton_eq. reflexivity.
      * rewrite lookup_singleton_eq. reflexivity.
    + intros k Hk. rewrite lookup_union, lookup_singleton_ne by congruence.
      destruct (extra !! k); reflexivity.
Qed.

Lemma Group_default_params_witness :
  (group.members_params nameless w0 =
     (Raise (Exn InvalidParametersError "group has to be provided."), w0)) ∧
  ∃ params : gmap string value,
    group._default_params jazz {[ "method" := VStr "group.getMembers" ]} w0 =
      (Ok params, w0) ∧
    params !! "group" = Some (VStr "Jazz") ∧
    params !! "method" = Some (VStr "group.getMembers").
Proof.
  split.
  - destruct (Group_default_params nameless ∅ w0) as [Hno _].
    destruct Hno as [_ Hmembers]; [reflexivity|exact Hmembers].
  - destruct (Group_default_params jazz {[ "method" := VStr "group.getMembers" ]} w0)
      as [_ Hyes].
    destruct Hyes as (params & Hp & Hgroup & Hrest); [reflexivity|].
    exists params. split; [exact Hp|]. split; [exact Hgroup|].
    rewrite Hrest by discriminate. reflexivity.
Defined.

(** X13. The identity key depends on the [name] keyword alone: positional
    arguments and other keywords do not enter it, and the hash of a Group is
    the key computed from any call that passes its name as [name]. *)
Theorem Group_hash_key_of_name :
  ∀ (H : BuiltinHash) (g : group.Group)
    (args args' : list value) (kwds kwds' : gmap string value),
    (kwds !! "name" = kwds' !! "name" →
       group._hash_func args kwds = group._hash_func args' kwds') ∧
    (kwds !! "name" = Some (group.name g) →
       group.__hash__ g = group._hash_func args kwds).
Proof.
  intros H g args args' kwds kwds'. split.
  - intros Hsame. unfold group._hash_func, dict_getitem. rewrite Hsame. reflexivity.
  - intros Hname. unfold group.__hash__, group._hash_func, dict_getitem.
    rewrite Hname, lookup_singleton_eq. reflexivity.
Qed.

Lemma Group_hash_key_of_name_witness :
  @group._hash_func sample_hash [] {[ "name" := VStr "Jazz" ]} =
    @group._hash_func sample_hash [VInt 1]
      (<[ "subject" := VInt 2 ]> {[ "name" := VStr "Jazz" ]}) ∧
  @group.__hash__ sample_hash jazz =
    @group._hash_func sample_hash [VInt 1]
      (<[ "subject" := VInt 2 ]> {[ "name" := VStr "Jazz" ]}).
Proof.
  split.
  - destruct (Group_hash_key_of_name sample_hash jazz [] [VInt 1]
                {[ "name" := VStr "Jazz" ]}
                (<[ "subject" := VInt 2 ]> {[ "name" := VStr "Jazz" ]})) as [Hsame _].
    apply Hsame. reflexivity.
  - destruct (Group_hash_key_of_name sample_hash jazz [VInt 1] []
                (<[ "subject" := VInt 2 ]> {[ "name" := VStr "Jazz" ]}) ∅)
      as [_ Hkey].
    apply Hkey. reflexivity.
Defined.

Lemma string_ltb_trans (a b c : string) :
  String.ltb a b = true → String.ltb b c = true → String.ltb a c = true.
Proof.
  unfold String.ltb.
  destruct (String.compare a b) eqn:Hab; try discriminate.
  destruct (String.compare b c) eqn:Hbc; try discriminate.
  intros _ _.
  assert (Hac : String_as_OT.lt a c) by (transitivity b; [exact Hab|exact Hbc]).
  unfold String_as_OT.lt in Hac. change (String.compare a c = Lt) in Hac.
  rewrite Hac. reflexivity.
Qed.

Lemma string_compare_refl (a : string) : String.compare a a = Eq.
Proof.
  pose proof (String.compare_antisym a a) as H.
  destruct (String.compare a a); simpl in H; congruence.
Qed.

(** X14. On Groups whose names are strings, [<] is a strict total order
    that agrees with [==]: of [g1 < g2], [g1 == g2] and [g2 < g1] exactly
    one holds, and [<] is transitive.  A Group without a name sorts before
    every Group with one. *)
Theorem Group_lt_strict_total :
  ∀ (lt_object : value → value → bool) (g1 g2 g3 : group.Group)
    (s1 s2 s3 : string),
    group.name g1 = VStr s1 →
    group.name g2 = VStr s2 →
    group.name g3 = VStr s3 →
    ((group.__lt__ lt_object g1 g2 = true ∧ group.__eq__ g1 g2 = false ∧
      group.__lt__ lt_object g2 g1 = false) ∨
     (group.__lt__ lt_object g1 g2 = false ∧ group.__eq__ g1 g2 = true ∧
      group.__lt__ lt_object g2 g1 = false) ∨
     (group.__lt__ lt_object g1 g2 = false ∧ group.__eq__ g1 g2 = false ∧
      group.__lt__ lt_object g2 g1 = true)) ∧
    (group.__lt__ lt_object g1 g2 = true →
     group.__lt__ lt_object g2 g3 = true →
     group.__lt__ lt_object g1 g3 = true) ∧
    (∀ g0 : group.Group,
       group.name g0 = VNone →
       group.__lt__ lt_object g0 g1 = true ∧
       group.__lt__ lt_object g1 g0 = false).
Proof.
  intros lt_object g1 g2 g3 s1 s2 s3 H1 H2 H3.
  unfold group.__lt__, group.__eq__, py_eq. rewrite H1, H2, H3. simpl.
  split; [|split].
  - unfold String.ltb. rewrite (String.compare_antisym s2 s1).
    destruct (String.compare s1 s2) eqn:Hc; simpl.
    + apply String.compare_eq_iff in Hc. subst s2.
      right. left. rewrite bool_decide_eq_true_2 by reflexivity. auto.
    + left. split; [reflexivity|]. split; [|reflexivity].
      apply bool_decide_eq_false_2. intros [= ->].
      rewrite string_compare_refl in Hc. discriminate.
    + right. right. split; [reflexivity|]. split; [|reflexivity].
      apply bool_decide_eq_false_2. intros [= ->].
      rewrite string_compare_refl in Hc. discriminate.
  - apply string_ltb_trans.
  - intros g0 H0. rewrite H0. split; reflexivity.
Qed.

Lemma Group_lt_strict_total_witness :
  group.__lt__ lt_opaque blues jazz = true ∧
  group.__lt__ lt_opaque jazz rock = true ∧
  group.__lt__ lt_opaque blues rock = true ∧
  group.__lt__ lt_opaque nameless blues = true.
Proof.
  destruct (Group_lt_strict_total lt_opaque blues jazz rock "Blues" "Jazz" "Rock")
    as (_ & Htrans & Hnone); [reflexivity..|].
  assert (Hbj : group.__lt__ lt_opaque blues jazz = true) by reflexivity.
  assert (Hjr : group.__lt__ lt_opaque jazz rock = true) by reflexivity.
  split; [exact Hbj|]. split; [exact Hjr|]. split; [exact (Htrans Hbj Hjr)|].
  apply (Hnone nameless). reflexivity.
Defined.

Lemma string_app_inv_tail (s1 s2 t : string) :
  s1 +:+ t = s2 +:+ t → s1 = s2.
Proof.
  intros Heq.
  assert (Hlen : ∀ a b : string,
             String.length (a +:+ b) = (String.length a + String.length b)%nat).
  { intros a b. induction a as [|c a IH]; simpl; [reflexivity|]. rewrite IH. reflexivity. }
  revert s2 Heq. induction s1 as [|c s1 IH]; intros [|d s2] Heq; simpl in Heq.
  - reflexivity.
  - apply (f_equal String.length) in Heq. simpl in Heq. rewrite ?Hlen in Heq.
    simpl in Heq. lia.
  - apply (f_equal String.length) in Heq. simpl in Heq. rewrite ?Hlen in Heq.
    simpl in Heq. lia.
  - injection Heq as -> Heq. f_equal. apply IH. exact Heq.
Qed.

(** X15. The printed form of a Group tells string names apart: two Groups
    whose names are strings print the same exactly when they are equal. *)
Theorem Group_repr_tells_names_apart :
  ∀ (str_object : value → string) (g1 g2 : group.Group) (s1 s2 : string),
    group.name g1 = VStr s1 →
    group.name g2 = VStr s2 →
    group.__repr__ str_object g1 = "<lastfm.Group: " +:+ s1 +:+ ">" ∧
    (group.__repr__ str_object g1 = group.__repr__ str_object g2 ↔
     group.__eq__ g1 g2 = true).
Proof.
  intros str_object g1 g2 s1 s2 H1 H2.
  unfold group.__repr__, group.__eq__, py_eq. rewrite H1, H2. simpl py_str.
  split; [reflexivity|].
  rewrite bool_decide_eq_true. split.
  - intros Heq. apply (inj (String.app "<lastfm.Group: ")) in Heq.
    apply string_app_inv_tail in Heq. subst s2. reflexivity.
  - intros [= ->]. reflexivity.
Qed.

Lemma Group_repr_tells_names_apart_witness :
  group.__repr__ str_opaque jazz = "<lastfm.Group: Jazz>" ∧
  (group.__repr__ str_opaque jazz = group.__repr__ str_opaque jazz' ↔
   group.__eq__ jazz jazz' = true).
Proof.
  apply (Group_repr_tells_names_apart str_opaque jazz jazz' "Jazz" "Jazz");
    reflexivity.
Defined.

(** * Further properties of [async_callback] *)

Lemma first_callable_after (pre post : list value) (a : value) :
  Forall (fun x => callable x = false) pre →
  callable a = true →
  decorators.first_callable (pre ++ a :: post) = Some a.
Proof.
  intros Hpre Ha. unfold decorators.first_callable.
  induction Hpre as [|x pre Hx Hpre IH]; simpl.
  - rewrite filter_cons_True by exact Ha. reflexivity.
  - rewrite filter_cons_False by (rewrite Hx; discriminate). exact IH.
Qed.

(** A function is found equal to itself without any call. *)
Lemma eq_item_same (eq_object : loc → value → code bool) (a : value) (s : store) :
  callable a = true → decorators.eq_item eq_object a a s = (Ok true, s).
Proof.
  destruct a; try discriminate. intros _. unfold decorators.eq_item.
  rewrite bool_decide_eq_true_2 by reflexivity. reflexivity.
Qed.

(** None, integers, strings and exceptions are not equal to a function,
    whatever the classes of the objects do. *)
Lemma eq_item_plain (eq_object : loc → value → code bool) (x a : value) (s : store) :
  callable x = false → callable a = true →
  (∀ l : loc, x ≠ VRef l) →
  decorators.eq_item eq_object x a s = (Ok false, s).
Proof.
  intros Hx Ha Hnoref. unfold decorators.eq_item.
  destruct x as [|n|t|f|e|l]; try discriminate;
    try (rewrite bool_decide_eq_false_2 by (intros <-; discriminate); reflexivity).
  exfalso. apply (Hnoref l). reflexivity.
Qed.

Lemma list_remove_after (eq_object : loc → value → code bool)
    (pre post : list value) (a : value) (s : store) :
  Forall (fun x => decorators.eq_item eq_object x a s = (Ok false, s)) pre →
  callable a = true →
  decorators.list_remove eq_object a (pre ++ a :: post) s = (Ok (pre ++ post), s).
Proof.
  intros Hpre Ha.
  induction Hpre as [|x pre Hx Hpre IH]; simpl.
  - rewrite eq_item_same by exact Ha. reflexivity.
  - rewrite Hx. rewrite IH. reflexivity.
Qed.

Lemma list_remove_raises (eq_object : loc → value → code bool)
    (pre1 pre2 : list value) (x a : value) (e : exn) (s s1 : store) :
  Forall (fun y => decorators.eq_item eq_object y a s = (Ok false, s)) pre1 →
  decorators.eq_item eq_object x a s = (Raise e, s1) →
  decorators.list_remove eq_object a (pre1 ++ x :: pre2) s = (Raise e, s1).
Proof.
  intros Hpre Hx.
  induction Hpre as [|y pre1 Hy Hpre IH]; simpl.
  - rewrite Hx. reflexivity.
  - rewrite Hy. rewrite IH. reflexivity.
Qed.

(** X16. The arguments before a positional callback decide what becomes of
    it.  When none of them is callable and each compares unequal to the
    callback, leaving the store as it is, the callback is taken out at its
    own place: the function
    receives the other arguments in their order, and without a [callback]
    keyword the call is dispatched with them.  When the comparison of one of
    them with the callback raises, as the [__eq__] of a Group does against a
    function, the call ends with that exception: the function is not
    entered and no thread is started. *)
Theorem async_callback_positional_removed :
  ∀ (func : list value → gmap string value → code value)
    (apply : value → value → code value)
    (eq_object : loc → value → code bool)
    (pre post : list value) (a : value) (kwargs : gmap string value) (w : world),
    Forall (fun x => callable x = false) pre →
    callable a = true →
    (Forall (fun x => decorators.eq_item eq_object x a (st w) = (Ok false, st w))
            pre →
     decorators.first_callable (pre ++ a :: post) = Some a ∧
     stripped eq_object (pre ++ a :: post) (st w) = (Ok (pre ++ post), st w) ∧
     (kwargs !! "callback" = None →
      dispatched
        (decorators.async_callback func apply eq_object (pre ++ a :: post) kwargs w)
        w (decorators.async_call func apply a (pre ++ post) kwargs))) ∧
    (∀ (pre1 pre2 : list value) (x : value) (e : exn) (s1 : store),
       pre = pre1 ++ x :: pre2 →
       Forall (fun y => decorators.eq_item eq_object y a (st w) = (Ok false, st w))
              pre1 →
       decorators.eq_item eq_object x a (st w) = (Raise e, s1) →
       decorators.async_callback func apply eq_object (pre ++ a :: post) kwargs w =
         (Raise e, searched w s1)).
Proof.
  intros func apply eq_object pre post a kwargs w Hpre Ha.
  pose proof (first_callable_after pre post a Hpre Ha) as Hfirst.
  split.
  - intros Hne.
    assert (Hs : stripped eq_object (pre ++ a :: post) (st w) =
                 (Ok (pre ++ post), st w)).
    { unfold stripped. rewrite Hfirst. apply list_remove_after; assumption. }
    split; [exact Hfirst|]. split; [exact Hs|].
    intros Hkw. unfold dispatched.
    rewrite async_callback_steps, Hs, Hfirst, Hkw. simpl.
    rewrite (delete_id kwargs "callback" Hkw).
    destruct a; try discriminate. destruct w. reflexivity.
  - intros pre1 pre2 x e s1 Hsplit Hne Hx.
    rewrite async_callback_steps. unfold stripped. rewrite Hfirst.
    rewrite Hsplit, <- app_assoc. simpl.
    rewrite (list_remove_raises eq_object pre1 (pre2 ++ a :: post) x a e (st w) s1 Hne Hx).
    reflexivity.
Qed.

Lemma async_callback_positional_removed_witness :
  (decorators.first_callable [VInt 3; VRef 1; VFunc 1; VStr "x"; VFunc 2] =
     Some (VFunc 1) ∧
   stripped eq_by_name [VInt 3; VRef 1; VFunc 1; VStr "x"; VFunc 2] (st w_flat) =
     (Ok [VInt 3; VRef 1; VStr "x"; VFunc 2], st w_flat) ∧
   dispatched
     (decorators.async_callback func_one apply_noop eq_by_name
        [VInt 3; VRef 1; VFunc 1; VStr "x"; VFunc 2] ∅ w_flat) w_flat
     (decorators.async_call func_one apply_noop (VFunc 1)
        [VInt 3; VRef 1; VStr "x"; VFunc 2] ∅)) ∧
  decorators.async_callback func_one apply_noop eq_by_name
      [VInt 3; VRef 1; VFunc 1] ∅ w_entity =
    (Raise no_attribute_name, searched w_entity (st w_entity)).
Proof.
  split.
  - destruct (async_callback_positional_removed func_one apply_noop eq_by_name
                [VInt 3; VRef 1] [VStr "x"; VFunc 2] (VFunc 1) ∅ w_flat)
      as [Hremoved _].
    + repeat constructor.
    + reflexivity.
    + destruct Hremoved as (Hfirst & Hstripped & Hdispatch).
      * repeat constructor.
      * split; [exact Hfirst|]. split; [exact Hstripped|].
        apply Hdispatch. reflexivity.
  - destruct (async_callback_positional_removed func_one apply_noop eq_by_name
                [VInt 3; VRef 1] [] (VFunc 1) ∅ w_entity) as [_ Hraises].
    + repeat constructor.
    + reflexivity.
    + apply (Hraises [VInt 3] [] (VRef 1) no_attribute_name (st w_entity)).
      * reflexivity.
      * repeat constructor.
      * reflexivity.
Defined.

(** * [top_property] over [cached_property] *)

Lemma truthy_insert_nonempty (h : gmap loc hobj) (l : loc)
    (y : value) (ys : list value) (x : value) :
  truthy h x = true → truthy (<[l := OList (y :: ys)]> h) x = true.
Proof.
  destruct x as [|n|s|f|e|m]; simpl; try (intros H; exact H).
  intros Hx. destruct (decide (l = m)) as [->|Hne].
  - rewrite lookup_insert_eq. reflexivity.
  - rewrite lookup_insert_ne by exact Hne. exact Hx.
Qed.

(** X17. The top item of a memoized list.  When the list attribute is a
    memoized property whose computation returns a list with a truthy first
    item, the top property returns that item, the list being computed on the
    first read only: a second read returns the item again without entering
    the computation. *)
Theorem top_property_of_cached_list :
  ∀ (func : decorators.getter) (w : world) (l : loc)
    (x : value) (rest : list value) (s1 : store),
    unset func w →
    decorators.call func (st w) = (Ok (VRef l), s1) →
    heap s1 !! l = Some (OList (x :: rest)) →
    truthy (heap s1) x = true →
    let top := decorators.top_property (class_with func) (decorators.co_name func) in
    fst (top w) = Ok x ∧
    invocations (trace (snd (top w))) = S (invocations (trace w)) ∧
    fst (top (snd (top w))) = Ok x ∧
    invocations (trace (snd (top (snd (top w))))) = S (invocations (trace w)).
Proof.
  intros func w l x rest s1 Hun Hcall Hl Hx top.
  assert (Htop : ∀ (w1 w2 : world) (l' : loc),
             decorators.cached_property func w1 = (Ok (VRef l'), w2) →
             heap (st w2) !! l' = Some (OList (x :: rest)) →
             truthy (heap (st w2)) x = true →
             top w1 = (Ok x, w2)).
  { intros w1 w2 l' Hread Hl' Hx'.
    unfold top, decorators.top_property, decorators.getattr, class_with.
    rewrite decide_True by reflexivity. step_M. rewrite Hread.
    unfold py_len. rewrite Hl'.
    replace (Z.of_nat (length (x :: rest)) =? 0) with false
      by (symmetry; apply Z.eqb_neq; simpl length; lia).
    unfold py_first. rewrite Hl'. unfold py_bool. rewrite Hx'. reflexivity. }
  set (w1 := {| st := store_slot func (VRef l) s1;
                trace := trace w ++ [EvFunc [] ∅] |}).
  set (l1 := fresh (dom (heap s1))).
  set (w2 := {| st := {| heap := <[l1 := OList (x :: rest)]> (heap s1);
                         self_dict := self_dict (st w1) |};
                trace := trace w1 |}).
  assert (Hread1 : decorators.cached_property func w = (Ok (VRef l1), w2)).
  { rewrite (read_unset_ok func w (VRef l) s1 Hun Hcall). fold w1.
    unfold copy_or_same, try_except, copy_copy. simpl. rewrite Hl. reflexivity. }
  assert (Htop1 : top w = (Ok x, w2)).
  { apply (Htop w w2 l1 Hread1).
    - simpl. apply lookup_insert_eq.
    - simpl. apply truthy_insert_nonempty. exact Hx. }
  assert (Hne : l1 ≠ l).
  { intros Heq. pose proof (is_fresh (dom (heap s1))) as Hfresh.
    fold l1 in Hfresh. rewrite Heq in Hfresh. apply Hfresh.
    apply elem_of_dom. eauto. }
  assert (Hl2 : heap (st w2) !! l = Some (OList (x :: rest))).
  { simpl. rewrite lookup_insert_ne by exact Hne. exact Hl. }
  assert (Hc2 : cached func w2 (VRef l)).
  { split; [|discriminate]. simpl. unfold store_slot. simpl. apply lookup_insert_eq. }
  set (l2 := fresh (dom (heap (st w2)))).
  set (w3 := {| st := {| heap := <[l2 := OList (x :: rest)]> (heap (st w2));
                         self_dict := self_dict (st w2) |};
                trace := trace w2 |}).
  assert (Hread2 : decorators.cached_property func w2 = (Ok (VRef l2), w3)).
  { rewrite (read_cached func w2 (VRef l) Hc2).
    unfold copy_or_same, try_except, copy_copy. rewrite Hl2. reflexivity. }
  assert (Htop2 : top w2 = (Ok x, w3)).
  { apply (Htop w2 w3 l2 Hread2).
    - simpl. apply lookup_insert_eq.
    - unfold w3. cbn [st heap].
      apply truthy_insert_nonempty. simpl. apply truthy_insert_nonempty. exact Hx. }
  rewrite Htop1. simpl. rewrite Htop2. simpl.
  split; [reflexivity|]. split; [apply invocations_snoc|].
  split; [reflexivity|apply invocations_snoc].
Qed.

Lemma top_property_of_cached_list_witness :
  let top := decorators.top_property (class_with getter_albums) "top_albums" in
  fst (top w0) = Ok (VInt 5) ∧
  invocations (trace (snd (top w0))) = 1%nat ∧
  fst (top (snd (top w0))) = Ok (VInt 5) ∧
  invocations (trace (snd (top (snd (top w0))))) = 1%nat.
Proof.
  apply (top_property_of_cached_list getter_albums w0 1%positive (VInt 5) [VInt 6]
           {| heap := <[1%positive := OList [VInt 5; VInt 6]]> (heap (st w0));
              self_dict := self_dict (st w0) |}); reflexivity.
Defined.

(** * [_get_arg_string] *)

Lemma str_list_remove_absent (x : string) (lst : list string) :
  x ∉ lst → decorators.str_list_remove x lst = None.
Proof.
  induction lst as [|y ys IH]; intros Hx; simpl; [reflexivity|].
  rewrite decide_False by (intros ->; apply Hx; apply list_elem_of_here).
  rewrite IH; [reflexivity|].
  intros Hin. apply Hx. apply list_elem_of_further. exact Hin.
Qed.

Lemma str_list_remove_first (x : string) (pre post : list string) :
  x ∉ pre → decorators.str_list_remove x (pre ++ x :: post) = Some (pre ++ post).
Proof.
  induction pre as [|y ys IH]; intros Hx; simpl.
  - rewrite decide_True by reflexivity. reflexivity.
  - rewrite decide_False by (intros ->; apply Hx; apply list_elem_of_here).
    rewrite IH; [reflexivity|].
    intros Hin. apply Hx. apply list_elem_of_further. exact Hin.
Qed.

Lemma nonempty_true (s : string) : decorators.nonempty s = true ↔ s ≠ EmptyString.
Proof. destruct s; simpl; split; congruence. Qed.

Lemma string_app_nonempty (s t : string) : s ≠ EmptyString → s +:+ t ≠ EmptyString.
Proof. destruct s; [congruence|]. simpl. discriminate. Qed.

Lemma concat_nonempty (sep : string) (l : list string) :
  Forall (fun s => s ≠ EmptyString) l → l ≠ [] →
  String.concat sep l ≠ EmptyString.
Proof.
  intros Hall Hl. destruct Hall as [|x xs Hx Hxs]; [congruence|].
  simpl. destruct xs; [exact Hx|]. apply string_app_nonempty. exact Hx.
Qed.

Lemma string_app_assoc (a b c : string) : (a +:+ b) +:+ c = a +:+ (b +:+ c).
Proof.
  induction a as [|x a IH]; [reflexivity|].
  change (String x ((a +:+ b) +:+ c) = String x (a +:+ (b +:+ c))).
  f_equal. exact IH.
Qed.

Lemma concat_app (sep : string) (l1 l2 : list string) :
  l1 ≠ [] → l2 ≠ [] →
  String.concat sep (l1 ++ l2) =
    String.concat sep l1 +:+ sep +:+ String.concat sep l2.
Proof.
  intros H1 H2. induction l1 as [|x xs IH]; [congruence|].
  destruct xs as [|y ys].
  - simpl. destruct l2; [congruence|]. reflexivity.
  - change (String.concat sep ((x :: y :: ys) ++ l2))
      with (x +:+ sep +:+ String.concat sep ((y :: ys) ++ l2)).
    rewrite IH by discriminate.
    change (String.concat sep (x :: y :: ys))
      with (x +:+ sep +:+ String.concat sep (y :: ys)).
    rewrite !string_app_assoc. reflexivity.
Qed.

Lemma format_defaults_zip (str_object : value → string) :
  ∀ (defargs : list string) (defaults : list value),
    (length defargs ≤ length defaults)%nat →
    decorators.format_defaults str_object defargs defaults =
      Ok (zip_with (fun a d => a +:+ " = " +:+ py_str str_object d) defargs defaults).
Proof.
  induction defargs as [|a defargs IH]; intros [|d defaults] Hlen; simpl in *;
    try reflexivity; [lia|].
  rewrite IH by lia. reflexivity.
Qed.

(** X18. Without default values the argument string is the names of the
    arguments after the first [self], joined by a comma and a space; it is
    printed as well as returned, and [self] is gone from the specification
    afterwards.  A specification without [self] raises [ValueError] and is
    left as it was, nothing being printed. *)
Theorem get_arg_string_plain :
  ∀ (str_object : value → string) (argspecs : decorators.ArgSpec),
    ("self" ∉ decorators.args argspecs →
       decorators._get_arg_string str_object argspecs =
         (Raise (Exn (OtherException "ValueError") "list.remove(x): x not in list"),
          argspecs, [])) ∧
    (∀ pre post : list string,
       "self" ∉ pre →
       decorators.args argspecs = pre ++ "self" :: post →
       decorators.defaults argspecs = None →
       decorators._get_arg_string str_object argspecs =
         (Ok (String.concat ", " (pre ++ post)),
          {| decorators.args := pre ++ post; decorators.defaults := None |},
          [String.concat ", " (pre ++ post)])).
Proof.
  intros str_object argspecs. split.
  - intros Hself. unfold decorators._get_arg_string.
    rewrite (str_list_remove_absent _ _ Hself). reflexivity.
  - intros pre post Hpre Hargs Hdef. unfold decorators._get_arg_string.
    rewrite Hargs, (str_list_remove_first _ _ _ Hpre), Hdef. reflexivity.
Qed.

Lemma get_arg_string_plain_witness :
  decorators._get_arg_string str_opaque spec_plain =
    (Ok "artist, title",
     {| decorators.args := ["artist"; "title"]; decorators.defaults := None |},
     ["artist, title"]) ∧
  decorators._get_arg_string str_opaque
      {| decorators.args := ["artist"]; decorators.defaults := None |} =
    (Raise (Exn (OtherException "ValueError") "list.remove(x): x not in list"),
     {| decorators.args := ["artist"]; decorators.defaults := None |}, []).
Proof.
  split.
  - destruct (get_arg_string_plain str_opaque spec_plain) as [_ Hjoin].
    apply (Hjoin [] ["artist"; "title"]); [|reflexivity..].
    apply not_elem_of_nil.
  - destruct (get_arg_string_plain str_opaque
                {| decorators.args := ["artist"]; decorators.defaults := None |})
      as [Hraise _].
    apply Hraise. simpl. intros Hin.
    apply list_elem_of_singleton in Hin. discriminate.
Defined.

Lemma slice_last_pos {A} (k : nat) (lst : list A) :
  (0 < k)%nat → decorators.slice_last k lst = drop (length lst - k) lst.
Proof. destruct k; [lia|reflexivity]. Qed.

Lemma slice_but_last_pos {A} (k : nat) (lst : list A) :
  (0 < k)%nat → decorators.slice_but_last k lst = take (length lst - k) lst.
Proof. destruct k; [lia|reflexivity]. Qed.

Lemma zip_with_formatted_nonempty (str_object : value → string)
    (names : list string) (ds : list value) :
  Forall (fun s => s ≠ EmptyString)
    (zip_with (fun a d => a +:+ " = " +:+ py_str str_object d) names ds).
Proof.
  revert ds. induction names as [|a names IH]; intros [|d ds]; simpl;
    constructor; [|apply IH].
  destruct a; discriminate.
Qed.

(** X19. With default values, no more of them than arguments, the argument
    string is the signature: the names without default, then [name =
    default] for the last arguments, all joined by a comma and a space.  It
    is printed as well as returned. *)
Theorem get_arg_string_signature :
  ∀ (str_object : value → string) (argspecs : decorators.ArgSpec)
    (rest : list string) (ds : list value),
    decorators.str_list_remove "self" (decorators.args argspecs) = Some rest →
    decorators.defaults argspecs = Some ds →
    (0 < length ds ≤ length rest)%nat →
    Forall (fun a => a ≠ EmptyString) rest →
    let k := (length rest - length ds)%nat in
    let signature :=
      String.concat ", "
        (take k rest ++
         zip_with (fun a d => a +:+ " = " +:+ py_str str_object d) (drop k rest) ds) in
    decorators._get_arg_string str_object argspecs =
      (Ok signature,
       {| decorators.args := rest; decorators.defaults := Some ds |},
       [signature]).
Proof.
  intros str_object argspecs rest ds Hremove Hdef [Hpos Hle] Hnames.
  cbv zeta.
  unfold decorators._get_arg_string. rewrite Hremove, Hdef.
  rewrite (slice_last_pos (length ds) rest Hpos).
  rewrite (slice_but_last_pos (length ds) rest Hpos).
  set (k := (length rest - length ds)%nat).
  rewrite format_defaults_zip by (rewrite length_drop; unfold k; lia).
  set (items := zip_with (fun a d => a +:+ " = " +:+ py_str str_object d)
                         (drop k rest) ds).
  assert (Hitems : items ≠ []).
  { unfold items. destruct (drop k rest) as [|a tl] eqn:Hdrop.
    - apply (f_equal length) in Hdrop. rewrite length_drop in Hdrop.
      simpl in Hdrop. unfold k in Hdrop. lia.
    - destruct ds; [simpl in Hpos; lia|]. discriminate. }
  assert (Hitems_ne : Forall (fun s => s ≠ EmptyString) items).
  { unfold items. apply zip_with_formatted_nonempty. }
  assert (Hdefs : decorators.nonempty (String.concat ", " items) = true).
  { apply nonempty_true. apply concat_nonempty; assumption. }
  assert (Hfront : Forall (fun s => s ≠ EmptyString) (take k rest))
    by (apply Forall_take; exact Hnames).
  rewrite Hdefs.
  destruct (take k rest) as [|a front] eqn:Htake.
  - simpl. destruct (String.concat ", " items) eqn:Hc; [discriminate|].
    reflexivity.
  - assert (Hnd : decorators.nonempty (String.concat ", " (a :: front)) = true).
    { apply nonempty_true. apply concat_nonempty; [exact Hfront|discriminate]. }
    rewrite Hnd. simpl andb. cbv iota.
    rewrite concat_app by (try discriminate; exact Hitems). reflexivity.
Qed.

Lemma get_arg_string_signature_witness :
  decorators._get_arg_string str_opaque spec_with_defaults =
    (Ok "user, limit = None, page = 1",
     {| decorators.args := ["user"; "limit"; "page"];
        decorators.defaults := Some [VNone; VInt 1] |},
     ["user, limit = None, page = 1"]).
Proof.
  apply (get_arg_string_signature str_opaque spec_with_defaults
           ["user"; "limit"; "page"] [VNone; VInt 1]).
  - reflexivity.
  - reflexivity.
  - simpl. lia.
  - repeat constructor; discriminate.
Defined.

(** X20. An empty tuple of defaults is not the same as no defaults: with
    arguments left after [self] the function raises [IndexError], [self]
    having been removed already and nothing printed; with none left it
    returns and prints the empty string. *)
Theorem get_arg_string_empty_defaults :
  ∀ (str_object : value → string) (argspecs : decorators.ArgSpec)
    (rest : list string),
    decorators.str_list_remove "self" (decorators.args argspecs) = Some rest →
    decorators.defaults argspecs = Some [] →
    decorators._get_arg_string str_object argspecs =
      match rest with
      | [] =>
          (Ok EmptyString,
           {| decorators.args := []; decorators.defaults := Some [] |},
           [EmptyString])
      | _ :: _ =>
          (Raise (Exn (OtherException "IndexError") "tuple index out of range"),
           {| decorators.args := rest; decorators.defaults := Some [] |}, [])
      end.
Proof.
  intros str_object argspecs rest Hremove Hdef.
  unfold decorators._get_arg_string. rewrite Hremove, Hdef.
  destruct rest as [|a rest]; reflexivity.
Qed.

Lemma get_arg_string_empty_defaults_witness :
  decorators._get_arg_string str_opaque spec_empty_defaults =
    (Raise (Exn (OtherException "IndexError") "tuple index out of range"),
     {| decorators.args := ["artist"]; decorators.defaults := Some [] |}, []).
Proof.
  apply (get_arg_string_empty_defaults str_opaque spec_empty_defaults ["artist"]);
    reflexivity.
Defined.

(** * Invariants *)

(** X21. Whatever the arguments, the wrapper of [async_callback] does one
    of three things.  It raises what a comparison raised during the search
    for a positional callback, nothing being entered or started.  Or it
    returns None with a thread started, having entered nothing itself.  Or
    it calls the function on the calling thread.  In the last two the
    function is called with the positional arguments as the search left
    them and with the keywords less [callback]: it never receives the
    [callback] keyword. *)
Theorem async_callback_three_ways :
  ∀ (func : list value → gmap string value → code value)
    (apply : value → value → code value)
    (eq_object : loc → value → code bool)
    (args : list value) (kwargs : gmap string value) (w : world),
    let r := decorators.async_callback func apply eq_object args kwargs w in
    delete "callback" kwargs !! "callback" = None ∧
    match stripped eq_object args (st w) with
    | (Raise e, s1) => r = (Raise e, searched w s1)
    | (Ok args', s1) =>
        (∃ cb : value,
           callable cb = true ∧
           dispatched r (searched w s1)
             (decorators.async_call func apply cb args' (delete "callback" kwargs))) ∨
        synchronous func r (searched w s1) args' (delete "callback" kwargs)
    end.
Proof.
  intros func apply eq_object args kwargs w r.
  split; [apply lookup_delete_eq|].
  unfold r. rewrite async_callback_steps. unfold dispatched.
  destruct (stripped eq_object args (st w)) as [[args'|e] s1]; [|reflexivity].
  cbv zeta.
  destruct (negb (is_None (default (default VNone (decorators.first_callable args))
                             (kwargs !! "callback"))) &&
            callable (default (default VNone (decorators.first_callable args))
                        (kwargs !! "callback"))) eqn:Hcb.
  - left. apply andb_true_iff in Hcb as [_ Hcb].
    eexists. split; [exact Hcb|reflexivity].
  - right. apply synchronous_invoke.
Qed.

(** X22. A read of a filled slot touches no object that exists: every
    object of the heap is afterwards what it was, and at most one object,
    the copy, is new. *)
Theorem cached_property_read_preserves_heap :
  ∀ (func : decorators.getter) (w : world) (v : value),
    cached func w v →
    let w' := snd (decorators.cached_property func w) in
    (∀ l : loc, is_Some (heap (st w) !! l) → heap (st w') !! l = heap (st w) !! l) ∧
    dom (heap (st w')) ⊆ dom (heap (st w)) ∪ {[ fresh (dom (heap (st w))) ]}.
Proof.
  intros func w v Hc w'. unfold w'.
  rewrite (read_cached func w v Hc).
  unfold copy_or_same, try_except, copy_copy.
  destruct v as [|n|s|f|e|l]; simpl; try (split; [reflexivity|apply union_subseteq_l]).
  destruct (heap (st w) !! l) as [[items|e]|] eqn:Hl; simpl.
  - split.
    + intros l0 Hl0. apply lookup_insert_ne. intros <-.
      apply (is_fresh (dom (heap (st w)))). apply elem_of_dom. exact Hl0.
    + rewrite dom_insert_L, (comm_L (∪)). reflexivity.
  - destruct (is_LastfmError e); simpl; (split; [reflexivity|apply union_subseteq_l]).
  - split; [reflexivity|apply union_subseteq_l].
Qed.

Lemma cached_property_read_preserves_heap_witness :
  let w' := snd (decorators.cached_property getter_None w_nested) in
  (∀ l : loc, is_Some (heap (st w_nested) !! l) →
              heap (st w') !! l = heap (st w_nested) !! l) ∧
  dom (heap (st w')) ⊆ dom (heap (st w_nested)) ∪ {[ fresh (dom (heap (st w_nested))) ]}.
Proof.
  apply (cached_property_read_preserves_heap getter_None w_nested (VRef 1)).
  split; [reflexivity|discriminate].
Defined.

Lemma invocations_page_events (args : list value) (ps : list Z)
    (params : gmap string value) :
  invocations (page_events (EvFunc args) ps params) = length ps.
Proof.
  revert params. induction ps as [|p ps IH]; intros params; [reflexivity|].
  simpl page_events.
  change (invocations (EvFunc args (<["page" := VInt p]> params)
                         :: page_events (EvFunc args) ps (<["page" := VInt p]> params)))
    with (S (invocations (page_events (EvFunc args) ps (<["page" := VInt p]> params)))).
  rewrite IH. reflexivity.
Qed.

Lemma length_xrange (a b : Z) : length (xrange a b) = Z.to_nat (b - a).
Proof. unfold xrange. rewrite length_fmap, length_seq. reflexivity. Qed.

(** X23. One request for each page: exhausting the sequence of
    [depaginate] over a steady source enters the function once for the first
    page and once for each of the pages 2 to [total], that is [total] times,
    and once when [total] is below 1. *)
Theorem depaginate_one_request_per_page :
  ∀ (func : list value → gmap string value → code (Z * list value))
    (args : list value) (kwargs : gmap string value)
    (total : Z) (pages : Z → list value) (w : world) (n : nat),
    (∀ (kw : gmap string value) (s : store),
        func args kw s = (Ok (total, pages (page_of kw)), s)) →
    (length (pages (page_of kwargs)) +
     length (concat (pages <$> xrange 2 (total + 1))) < n)%nat →
    invocations (trace (snd (decorators.depaginate_take func args kwargs n Start w))) =
      (invocations (trace w) + Z.to_nat (Z.max 1 total))%nat.
Proof.
  intros func args kwargs total pages w n Hsteady Hn.
  unfold decorators.depaginate_take, decorators.call_func.
  pose proof (gen_take_start (func args) (EvFunc args) total pages Hsteady
                kwargs 2 w n) as Hstart.
  simpl in Hstart. rewrite Hstart by exact Hn. simpl.
  rewrite invocations_app.
  change (invocations (EvFunc args kwargs
                         :: page_events (EvFunc args) (xrange 2 (total + 1)) kwargs))
    with (S (invocations (page_events (EvFunc args) (xrange 2 (total + 1)) kwargs))).
  rewrite invocations_page_events, length_xrange. lia.
Qed.

Lemma depaginate_one_request_per_page_witness :
  invocations (trace (snd (decorators.depaginate_take search_two_pages [] ∅ 4 Start w0))) =
    (invocations (trace w0) + Z.to_nat (Z.max 1 2))%nat.
Proof.
  apply (depaginate_one_request_per_page search_two_pages [] ∅ 2
           (fun p : Z => if p =? 2 then [VStr "carol"]
                         else [VStr "alice"; VStr "bob"]) w0 4).
  - intros kw s. reflexivity.
  - vm_compute. lia.
Defined.
